(** * Desktop notes: the record store, the start-up resolution and the
      drag/resize engine

    A shallow embedding of [src/data/notedata.h], [src/data/databasemanager.cpp],
    [src/desktopnotesapplet.cpp] and [src/stylingdialog.cpp], followed by the
    properties of the specification stated over it.

    Conventions of the embedding.
    - A C++ [int] is a [Z]; where Qt narrows a wider value ([toInt]) the
      wrap-around to 32 bits is written out ([CInt.wrap]).
    - A C++ [double] is an IEEE-754 binary64 value ([spec_float] of the
      standard library, precision 53, maximal exponent 1024).
    - A [QString] is a [string]; the null and the empty string are not told
      apart (they compare equal in Qt).
    - [QVariantMap] and [QJsonObject] are finite maps keyed by strings.
    - The SQLite file is a table of rows kept in rowid order together with
      the AUTOINCREMENT counter; every [QSqlQuery::exec] is one atomic
      statement on it.  A statement may fail (locked file, I/O error): the
      outcomes of the coming [exec] calls are part of the state.
    - Pixel coordinates are integers: [QPointF] and [QRectF] carry them
      exactly, so [toPoint] and [toSize] are the identity. *)

From stdpp Require Import base strings list gmap.
From Stdlib Require Import ZArith Lia Sorting.Sorted.
From Stdlib Require Import Floats.SpecFloat.

Local Open Scope Z_scope.

(* ===================================================================== *)
(** ** Machine integers and doubles *)
(* ===================================================================== *)

Module CInt.

Definition INT_MIN : Z := - 2 ^ 31.
Definition INT_MAX : Z := 2 ^ 31 - 1.

(** A value that a C++ [int] can hold. *)
Definition in_range (n : Z) : Prop := INT_MIN <= n <= INT_MAX.

(** Narrowing of a 64-bit value to [int] (two's complement). *)
Definition wrap (n : Z) : Z := (n + 2 ^ 31) mod 2 ^ 32 - 2 ^ 31.

End CInt.

Module Double.

Definition prec : Z := 53.
Definition emax : Z := 1024.

(** [static_cast<double>(n)], and the implicit conversion of an [int]. *)
Definition of_int (n : Z) : spec_float := binary_normalize prec emax n 0 false.

Definition div (x y : spec_float) : spec_float := SFdiv prec emax x y.

Definition eqb (x y : spec_float) : bool := SFeqb x y.
Definition leb (x y : spec_float) : bool := SFleb x y.

(** The literals of the source. *)
Definition zero : spec_float := S754_zero false.
Definition one : spec_float := of_int 1.
Definition hundred : spec_float := of_int 100.

(** [m / 2^k] rounded to the nearest integer, halves away from zero. *)
Definition round_shift (m : Z) (k : Z) : Z :=
  Z.sgn m * ((2 * Z.abs m + 2 ^ k) / (2 * 2 ^ k)).

(** [qRound64]: the nearest integer of a finite double. *)
Definition round64 (d : spec_float) : Z :=
  match d with
  | S754_finite s m e =>
      let v := if s then Z.neg m else Z.pos m in
      if 0 <=? e then v * 2 ^ e else round_shift v (- e)
  | _ => 0
  end.

End Double.

(* ===================================================================== *)
(** ** QVariant and JSON values *)
(* ===================================================================== *)

Inductive QVariant : Type :=
  | VInvalid
  | VInt (n : Z)
  | VDouble (d : spec_float)
  | VString (s : string).

Inductive QJsonValue : Type :=
  | JNull
  | JDouble (d : spec_float)
  | JString (s : string).

Module Variant.

(** [QVariant::toDouble].  Text is not parsed as a number in this model:
    the store never writes text under a numeric key. *)
Definition toDouble (v : QVariant) : spec_float :=
  match v with
  | VDouble d => d
  | VInt n => Double.of_int n
  | VInvalid | VString _ => Double.zero
  end.

(** [QVariant::toInt]: a double is rounded, then narrowed. *)
Definition toInt (v : QVariant) : Z :=
  match v with
  | VInt n => n
  | VDouble d => CInt.wrap (Double.round64 d)
  | VInvalid | VString _ => 0
  end.

(** [QVariant::toString].  Numbers are not printed in this model: the
    store never writes a number under a text key. *)
Definition toString (v : QVariant) : string :=
  match v with
  | VString s => s
  | VInvalid | VInt _ | VDouble _ => ""
  end.

(** [QMap::value(key, defaultValue)]. *)
Definition value (m : gmap string QVariant) (k : string) (dflt : QVariant)
  : QVariant := default dflt (m !! k).

End Variant.

Module Json.

(** [QJsonValue::fromVariant]: JSON has one number type. *)
Definition fromVariant (v : QVariant) : QJsonValue :=
  match v with
  | VInvalid => JNull
  | VInt n => JDouble (Double.of_int n)
  | VDouble d => JDouble d
  | VString s => JString s
  end.

(** [QJsonValue::toVariant]. *)
Definition toVariant (j : QJsonValue) : QVariant :=
  match j with
  | JNull => VInvalid
  | JDouble d => VDouble d
  | JString s => VString s
  end.

(** What survives being written as JSON text and parsed again: a number
    that is not finite is written as [null], and [-0] is read back as
    the integer [0]. *)
Definition written (j : QJsonValue) : QJsonValue :=
  match j with
  | JDouble (S754_zero _) => JDouble (S754_zero false)
  | JDouble (S754_finite s m e) => JDouble (S754_finite s m e)
  | JDouble _ => JNull
  | other => other
  end.

(** The bytes of a compact JSON document holding an object, kept as the
    object they denote. *)
Inductive QByteArray : Type := Text (o : gmap string QJsonValue).

(** [QJsonDocument::fromVariant(map).toJson(QJsonDocument::Compact)]. *)
Definition toJson (m : gmap string QVariant) : QByteArray :=
  Text (written <$> (fromVariant <$> m)).

(** [QJsonDocument::fromJson(bytes).object().toVariantMap()]. *)
Definition toVariantMap (b : QByteArray) : gmap string QVariant :=
  match b with Text o => toVariant <$> o end.

End Json.

(* ===================================================================== *)
(** ** notedata.h *)
(* ===================================================================== *)

Record QPoint : Type := mkQPoint { px : Z; py : Z }.
Record QSize : Type := mkQSize { width : Z; height : Z }.

Record NoteStyle : Type := mkNoteStyle {
  transparency : spec_float;
  backgroundColor : string;
  margin : Z
}.

Record Note : Type := mkNote {
  id : Z;
  status : string;
  filepath : string;
  position : QPoint;
  size : QSize;
  style : NoteStyle
}.

(** [NoteStyle() = default] and [Note() = default]: the member initialisers. *)
Definition defaultNoteStyle : NoteStyle :=
  {| transparency := Double.one; backgroundColor := "#FFFFE0"; margin := 10 |}.

Definition defaultNote : Note :=
  {| id := -1; status := "shown"; filepath := "";
     position := mkQPoint 50 50; size := mkQSize 200 150;
     style := defaultNoteStyle |}.

Definition isValid (n : Note) : bool := negb (id n =? -1).

Definition set_id (v : Z) (n : Note) : Note :=
  {| id := v; status := status n; filepath := filepath n;
     position := position n; size := size n; style := style n |}.
Definition set_status (v : string) (n : Note) : Note :=
  {| id := id n; status := v; filepath := filepath n;
     position := position n; size := size n; style := style n |}.
Definition set_filepath (v : string) (n : Note) : Note :=
  {| id := id n; status := status n; filepath := v;
     position := position n; size := size n; style := style n |}.
Definition set_position (v : QPoint) (n : Note) : Note :=
  {| id := id n; status := status n; filepath := filepath n;
     position := v; size := size n; style := style n |}.
Definition set_size (v : QSize) (n : Note) : Note :=
  {| id := id n; status := status n; filepath := filepath n;
     position := position n; size := v; style := style n |}.
Definition set_style (v : NoteStyle) (n : Note) : Note :=
  {| id := id n; status := status n; filepath := filepath n;
     position := position n; size := size n; style := v |}.

Definition set_transparency (v : spec_float) (s : NoteStyle) : NoteStyle :=
  {| transparency := v; backgroundColor := backgroundColor s; margin := margin s |}.
Definition set_backgroundColor (v : string) (s : NoteStyle) : NoteStyle :=
  {| transparency := transparency s; backgroundColor := v; margin := margin s |}.
Definition set_margin (v : Z) (s : NoteStyle) : NoteStyle :=
  {| transparency := transparency s; backgroundColor := backgroundColor s; margin := v |}.

(* ===================================================================== *)
(** ** The SQLite file behind [QSqlDatabase] *)
(* ===================================================================== *)

(** The columns of table [notes] other than the key.  [filepath] is the
    only column the code ever binds to NULL. *)
Record Columns : Type := mkColumns {
  col_status : string;
  col_filepath : option string;
  col_position_x : Z;
  col_position_y : Z;
  col_size_width : Z;
  col_size_height : Z;
  col_style : Json.QByteArray
}.

Record Row : Type := mkRow { col_id : Z; cols : Columns }.

(** The seven statements of databasemanager.cpp with their bound values. *)
Inductive Stmt : Type :=
  | CreateTable
  | Insert (c : Columns)
  | Update (i : Z) (c : Columns)
  | SelectById (i : Z)
  | SelectAll
  | Delete (i : Z)
  | UpdateStatus (i : Z) (s : string).

(** What a [QSqlQuery] holds after a successful [exec]. *)
Record QueryResult : Type := mkResult {
  fetched : list Row;
  numRowsAffected : Z;
  lastInsertId : Z
}.

Record World : Type := mkWorld {
  conn_open : bool;          (* m_db.isOpen() of this process *)
  medium_ok : bool;          (* the data directory and the file can be opened *)
  table : option (list Row); (* table notes, in rowid order; None before CREATE *)
  sqlite_sequence : Z;       (* the AUTOINCREMENT counter: largest rowid handed out *)
  faults : list bool;        (* for each coming exec(): does it fail? *)
  trace : list Stmt          (* the statements that ran, oldest first *)
}.

Definition set_conn_open (v : bool) (w : World) : World :=
  mkWorld v (medium_ok w) (table w) (sqlite_sequence w) (faults w) (trace w).
Definition set_faults (v : list bool) (w : World) : World :=
  mkWorld (conn_open w) (medium_ok w) (table w) (sqlite_sequence w) v (trace w).

(** The state of the world after statement [s] ran, leaving table [t] and
    counter [q]. *)
Definition ran (s : Stmt) (t : list Row) (q : Z) (w : World) : World :=
  mkWorld (conn_open w) (medium_ok w) (Some t) q (faults w) (trace w ++ [s]).

Definition has_id (i : Z) (r : Row) : bool := col_id r =? i.

Definition set_row_status (s : string) (r : Row) : Row :=
  let c := cols r in
  mkRow (col_id r)
    (mkColumns s (col_filepath c) (col_position_x c) (col_position_y c)
       (col_size_width c) (col_size_height c) (col_style c)).

Definition affected (i : Z) (t : list Row) : Z :=
  Z.of_nat (length (filter (λ r, has_id i r = true) t)).

(** One statement on the table.  AUTOINCREMENT hands out the successor of
    the largest rowid ever used, so a new row goes to the end of the
    rowid order. *)
Definition run_stmt (s : Stmt) (t : list Row) (q : Z)
  : list Row * Z * QueryResult :=
  match s with
  | CreateTable => (t, q, mkResult [] 0 0)
  | Insert c => (t ++ [mkRow (q + 1) c], q + 1, mkResult [] 1 (q + 1))
  | Update i c =>
      (map (λ r, if has_id i r then mkRow i c else r) t, q,
       mkResult [] (affected i t) 0)
  | SelectById i => (t, q, mkResult (filter (λ r, has_id i r = true) t) 0 0)
  | SelectAll => (t, q, mkResult t 0 0)
  | Delete i =>
      (filter (λ r, has_id i r = false) t, q, mkResult [] (affected i t) 0)
  | UpdateStatus i st =>
      (map (λ r, if has_id i r then set_row_status st r else r) t, q,
       mkResult [] (affected i t) 0)
  end.

(** The store monad: a computation on the world. *)
Definition M (A : Type) : Type := World → A * World.

Definition ret {A : Type} (a : A) : M A := λ w, (a, w).
Definition bind {A B : Type} (m : M A) (k : A → M B) : M B :=
  λ w, let '(a, w') := m w in k a w'.

Notation "'let!' x ':=' m 'in' k" := (bind m (λ x, k))
  (at level 10, x name, m at level 200, k at level 200).

(** [QSqlQuery::prepare] and [exec] of one statement: [None] when it
    fails.  It fails when the environment makes it fail, and when the
    table is missing; a failed statement changes nothing. *)
Definition exec (s : Stmt) : M (option QueryResult) := λ w,
  let failed := match faults w with f :: _ => f | [] => false end in
  let w := set_faults (tail (faults w)) w in
  if failed then (None, w)
  else match s, table w with
       | CreateTable, None => (Some (mkResult [] 0 0), ran s [] (sqlite_sequence w) w)
       | _, None => (None, w)
       | _, Some t =>
           let '(t', q', res) := run_stmt s t (sqlite_sequence w) in
           (Some res, ran s t' q' w)
       end.

(* ===================================================================== *)
(** ** databasemanager.cpp *)
(* ===================================================================== *)

Module DatabaseManager.

Definition isOpen : M bool := λ w, (conn_open w, w).

Definition initializeDatabase : M bool :=
  let! o := isOpen in
  if negb o then ret false
  else let! r := exec CreateTable in
       match r with
       | None => ret false
       | Some _ => ret true
       end.

(** [mkpath] and [m_db.open()]: they succeed when the medium allows it,
    and the connection stays open from then on. *)
Definition open_file : M bool := λ w,
  if medium_ok w then (true, set_conn_open true w) else (false, w).

Definition openDb : M bool :=
  let! o := isOpen in
  if o then ret true
  else let! f := open_file in
       if negb f then ret false else initializeDatabase.

(** The guard [!m_db.isOpen() && !openDb()] that opens every operation. *)
Definition not_open : M bool :=
  let! o := isOpen in
  if o then ret false else let! b := openDb in ret (negb b).

Definition styleToVariantMap (s : NoteStyle) : gmap string QVariant :=
  <["margin" := VInt (margin s)]>
    (<["backgroundColor" := VString (backgroundColor s)]>
       (<["transparency" := VDouble (transparency s)]> ∅)).

Definition styleFromVariantMap (m : gmap string QVariant) : NoteStyle :=
  {| transparency :=
       Variant.toDouble (Variant.value m "transparency" (VDouble Double.one));
     backgroundColor :=
       Variant.toString (Variant.value m "backgroundColor" (VString "#FFFFE0"));
     margin := Variant.toInt (Variant.value m "margin" (VInt 10)) |}.

(** The [bindValue] calls shared by [addNote] and [updateNote].  The
    status is bound as text.  A [string] of the model does not tell the
    null [QString] from the empty one; the null one is bound as NULL,
    which the NOT NULL column refuses, so what is proved below of a
    status that is written is proved of a status that is not empty. *)
Definition bound (n : Note) : Columns :=
  {| col_status := status n;
     col_filepath := if String.eqb (filepath n) "" then None else Some (filepath n);
     col_position_x := px (position n);
     col_position_y := py (position n);
     col_size_width := width (size n);
     col_size_height := height (size n);
     col_style := Json.toJson (styleToVariantMap (style n)) |}.

(** The [query.value(...)] reads shared by [getNoteById] and [getAllNotes]. *)
Definition fetch (r : Row) : Note :=
  let c := cols r in
  {| id := CInt.wrap (col_id r);
     status := col_status c;
     filepath := match col_filepath c with None => "" | Some p => p end;
     position := mkQPoint (CInt.wrap (col_position_x c)) (CInt.wrap (col_position_y c));
     size := mkQSize (CInt.wrap (col_size_width c)) (CInt.wrap (col_size_height c));
     style := styleFromVariantMap (Json.toVariantMap (col_style c)) |}.

Definition addNote (noteData : Note) : M Z :=
  let! c := not_open in
  if c then ret (-1)
  else let! r := exec (Insert (bound noteData)) in
       match r with
       | None => ret (-1)
       | Some res => ret (CInt.wrap (lastInsertId res))
       end.

Definition updateNote (noteData : Note) : M bool :=
  if id noteData =? -1 then ret false
  else let! c := not_open in
       if c then ret false
       else let! r := exec (Update (id noteData) (bound noteData)) in
            match r with
            | None => ret false
            | Some _ => ret true   (* also when no row was affected *)
            end.

Definition getNoteById (i : Z) : M Note :=
  let! c := not_open in
  if c then ret defaultNote
  else let! r := exec (SelectById i) in
       match r with
       | None => ret defaultNote
       | Some res =>
           match fetched res with
           | row :: _ => ret (fetch row)
           | [] => ret defaultNote
           end
       end.

(** The constructor [QSqlQuery(text, m_db)] already runs the statement;
    [query.exec()] then runs it again, and only that outcome is looked at. *)
Definition getAllNotes : M (list Note) :=
  let! c := not_open in
  if c then ret []
  else let! _ := exec SelectAll in
       let! r := exec SelectAll in
       match r with
       | None => ret []
       | Some res => ret (map fetch (fetched res))
       end.

Definition deleteNoteById (i : Z) : M bool :=
  let! c := not_open in
  if c then ret false
  else let! r := exec (Delete i) in
       match r with
       | None => ret false
       | Some _ => ret true
       end.

(** As for [bound], an empty [st] may stand for the null [QString], for
    which the statement fails on an existing row; the properties of
    [setNoteStatus] are stated for a status that is not empty. *)
Definition setNoteStatus (i : Z) (st : string) : M bool :=
  let! c := not_open in
  if c then ret false
  else let! r := exec (UpdateStatus i st) in
       match r with
       | None => ret false
       | Some _ => ret true   (* also when no row was affected *)
       end.

End DatabaseManager.

(* ===================================================================== *)
(** ** Geometry: QRectF on integer pixels *)
(* ===================================================================== *)

Record QRectF : Type := mkQRectF { xp : Z; yp : Z; rw : Z; rh : Z }.

Module Rect.

Definition make (topLeft : QPoint) (sz : QSize) : QRectF :=
  mkQRectF (px topLeft) (py topLeft) (width sz) (height sz).

Definition left (r : QRectF) : Z := xp r.
Definition top (r : QRectF) : Z := yp r.
Definition right (r : QRectF) : Z := xp r + rw r.
Definition bottom (r : QRectF) : Z := yp r + rh r.

Definition topLeft (r : QRectF) : QPoint := mkQPoint (xp r) (yp r).
Definition topRight (r : QRectF) : QPoint := mkQPoint (xp r + rw r) (yp r).
Definition bottomLeft (r : QRectF) : QPoint := mkQPoint (xp r) (yp r + rh r).
Definition bottomRight (r : QRectF) : QPoint := mkQPoint (xp r + rw r) (yp r + rh r).
Definition size (r : QRectF) : QSize := mkQSize (rw r) (rh r).

(** [setLeft] and [setTop] move one edge and keep the opposite one:
    the extent absorbs the difference.  [setRight], [setBottom],
    [setWidth] and [setHeight] keep the origin and set the extent. *)
Definition setLeft (pos : Z) (r : QRectF) : QRectF :=
  let diff := pos - xp r in mkQRectF (xp r + diff) (yp r) (rw r - diff) (rh r).
Definition setTop (pos : Z) (r : QRectF) : QRectF :=
  let diff := pos - yp r in mkQRectF (xp r) (yp r + diff) (rw r) (rh r - diff).
Definition setRight (pos : Z) (r : QRectF) : QRectF :=
  mkQRectF (xp r) (yp r) (pos - xp r) (rh r).
Definition setBottom (pos : Z) (r : QRectF) : QRectF :=
  mkQRectF (xp r) (yp r) (rw r) (pos - yp r).
Definition setWidth (v : Z) (r : QRectF) : QRectF :=
  mkQRectF (xp r) (yp r) v (rh r).
Definition setHeight (v : Z) (r : QRectF) : QRectF :=
  mkQRectF (xp r) (yp r) (rw r) v.

Definition translate (d : QPoint) (r : QRectF) : QRectF :=
  mkQRectF (xp r + px d) (yp r + py d) (rw r) (rh r).

Definition adjusted (dx1 dy1 dx2 dy2 : Z) (r : QRectF) : QRectF :=
  mkQRectF (xp r + dx1) (yp r + dy1) (rw r + dx2 - dx1) (rh r + dy2 - dy1).

(** [QRectF::contains(QPointF)]: edges included, an extent below zero is
    turned round, a rectangle without width or height holds nothing. *)
Definition contains (p : QPoint) (r : QRectF) : bool :=
  let l := if rw r <? 0 then xp r + rw r else xp r in
  let rr := if rw r <? 0 then xp r else xp r + rw r in
  let t := if rh r <? 0 then yp r + rh r else yp r in
  let b := if rh r <? 0 then yp r else yp r + rh r in
  if l =? rr then false
  else if (px p <? l) || (rr <? px p) then false
  else if t =? b then false
  else if (py p <? t) || (b <? py p) then false
  else true.

End Rect.

Definition point_sub (a b : QPoint) : QPoint := mkQPoint (px a - px b) (py a - py b).

(** [QPointF::toPoint] and [QSizeF::toSize]: the coordinates become C++
    [int]s.  On whole pixels inside the range of [int] nothing changes;
    outside it the conversion is undefined in C++, and the model wraps
    as it does for [toInt]. *)
Definition toPoint (p : QPoint) : QPoint :=
  mkQPoint (CInt.wrap (px p)) (CInt.wrap (py p)).
Definition toSize (s : QSize) : QSize :=
  mkQSize (CInt.wrap (width s)) (CInt.wrap (height s)).

(* ===================================================================== *)
(** ** desktopnotesapplet.cpp *)
(* ===================================================================== *)

Inductive ResizeHandle : Type :=
  | NoHandle   (* ResizeHandle::None *)
  | TopLeft | Top | TopRight | Left | Right
  | BottomLeft | Bottom | BottomRight | Body.

Definition ResizeHandle_eqb (a b : ResizeHandle) : bool :=
  match a, b with
  | NoHandle, NoHandle | TopLeft, TopLeft | Top, Top | TopRight, TopRight
  | Left, Left | Right, Right | BottomLeft, BottomLeft | Bottom, Bottom
  | BottomRight, BottomRight | Body, Body => true
  | _, _ => false
  end.

Inductive MouseButton : Type := LeftButton | RightButton | OtherButton.

(** What the handlers read of a [QGraphicsSceneMouseEvent]. *)
Record MouseEvent : Type := mkMouseEvent {
  button : MouseButton;   (* the button that caused the event *)
  left_down : bool;       (* buttons() & Qt::LeftButton *)
  pos : QPoint;           (* in the coordinates of the applet *)
  screenPos : QPoint
}.

(** The members of the applet the core reads and writes, with the slot
    [noteId] of its configuration group and the geometry the shell keeps
    for it.  Painting, cursors and the text view are left out. *)
Record Applet : Type := mkApplet {
  m_note : Note;
  config_noteId : option Z;
  visible : bool;
  geometry : QRectF;
  m_dragResizeMode : bool;
  m_dragStartPosition : QPoint;
  m_currentResizeHandle : ResizeHandle;
  m_originalGeometryOnDragStart : QRectF
}.

Definition set_m_note (v : Note) (a : Applet) : Applet :=
  mkApplet v (config_noteId a) (visible a) (geometry a) (m_dragResizeMode a)
    (m_dragStartPosition a) (m_currentResizeHandle a) (m_originalGeometryOnDragStart a).
Definition set_config_noteId (v : option Z) (a : Applet) : Applet :=
  mkApplet (m_note a) v (visible a) (geometry a) (m_dragResizeMode a)
    (m_dragStartPosition a) (m_currentResizeHandle a) (m_originalGeometryOnDragStart a).
Definition setVisible (v : bool) (a : Applet) : Applet :=
  mkApplet (m_note a) (config_noteId a) v (geometry a) (m_dragResizeMode a)
    (m_dragStartPosition a) (m_currentResizeHandle a) (m_originalGeometryOnDragStart a).
(** The shell gives the applet the geometry it asks for. *)
Definition setPreferredGeometry (v : QRectF) (a : Applet) : Applet :=
  mkApplet (m_note a) (config_noteId a) (visible a) v (m_dragResizeMode a)
    (m_dragStartPosition a) (m_currentResizeHandle a) (m_originalGeometryOnDragStart a).
Definition set_m_dragResizeMode (v : bool) (a : Applet) : Applet :=
  mkApplet (m_note a) (config_noteId a) (visible a) (geometry a) v
    (m_dragStartPosition a) (m_currentResizeHandle a) (m_originalGeometryOnDragStart a).
Definition set_m_dragStartPosition (v : QPoint) (a : Applet) : Applet :=
  mkApplet (m_note a) (config_noteId a) (visible a) (geometry a) (m_dragResizeMode a)
    v (m_currentResizeHandle a) (m_originalGeometryOnDragStart a).
Definition set_m_currentResizeHandle (v : ResizeHandle) (a : Applet) : Applet :=
  mkApplet (m_note a) (config_noteId a) (visible a) (geometry a) (m_dragResizeMode a)
    (m_dragStartPosition a) v (m_originalGeometryOnDragStart a).
Definition set_m_originalGeometryOnDragStart (v : QRectF) (a : Applet) : Applet :=
  mkApplet (m_note a) (config_noteId a) (visible a) (geometry a) (m_dragResizeMode a)
    (m_dragStartPosition a) (m_currentResizeHandle a) v.

(** An applet as the constructor leaves it, at geometry [g], with the
    configuration slot [c] the shell kept for it. *)
Definition constructed (c : option Z) (g : QRectF) : Applet :=
  mkApplet defaultNote c true g false (mkQPoint 0 0) NoHandle (mkQRectF 0 0 0 0).

Module DesktopNotesApplet.

Import DatabaseManager.

Definition readConfig (a : Applet) : Applet :=
  set_m_note (set_id (default (-1) (config_noteId a)) (m_note a)) a.

Definition writeConfig (a : Applet) : Applet :=
  set_config_noteId (Some (id (m_note a))) a.

(** Lines 111-121 of [initializeNewNote]: the listing and the loop that
    stops at the first note whose status is "pending_placement". *)
Definition first_pending (allNotes : list Note) : option Note :=
  List.find (λ note, String.eqb (status note) "pending_placement") allNotes.

Definition scan_pending : M (option Note) :=
  let! allNotes := getAllNotes in ret (first_pending allNotes).

(** Lines 158-163: the resolved id goes to the configuration slot. *)
Definition remember (a : Applet) : Applet :=
  if isValid (m_note a) then writeConfig a else a.

(** Lines 123-163 of [initializeNewNote]. *)
Definition settle (found : option Note) (a : Applet) : M Applet :=
  match found with
  | Some adoptableNote =>
      let a := set_m_note (set_status "shown" adoptableNote) a in
      let! updated := updateNote (m_note a) in
      if updated then
        ret (remember
               (setPreferredGeometry
                  (Rect.make (position (m_note a)) (size (m_note a))) a))
      else
        let a := set_m_note defaultNote a in
        let! newId := addNote (m_note a) in
        ret (remember
               (if negb (newId =? -1)
                then set_m_note (set_id newId (m_note a)) a else a))
  | None =>
      let a := set_m_note defaultNote a in
      let! newId := addNote (m_note a) in
      if negb (newId =? -1)
      then ret (remember (set_m_note (set_id newId (m_note a)) a))
      else ret a
  end.

Definition initializeNewNote (a : Applet) : M Applet :=
  let! found := scan_pending in settle found a.

Definition loadNoteData (a : Applet) : M Applet :=
  if negb (isValid (m_note a)) then ret a
  else let! dbNote := getNoteById (id (m_note a)) in
       if isValid dbNote then ret (set_m_note dbNote a)
       else ret (set_m_note (set_filepath "" (m_note a)) a).

Definition saveNoteData (a : Applet) : M unit :=
  if negb (isValid (m_note a)) then ret tt
  else let! _ := updateNote (m_note a) in ret tt.

(** [init], entered after the shell called [readConfig]. *)
Definition init (a : Applet) : M Applet :=
  let! a := (if negb (isValid (m_note a)) then initializeNewNote a else ret a) in
  let! _ := openDb in
  let! a := loadNoteData a in
  ret (if String.eqb (status (m_note a)) "hidden" then setVisible false a else a).

(** The start of an instance: the constructor takes the store manager,
    which opens the store when the process did not have it yet; then the
    shell calls [readConfig] and [init]. *)
Definition start (c : option Z) (g : QRectF) : M Applet :=
  let! _ := openDb in
  init (readConfig (constructed c g)).

Definition handleDragResize (a : Applet) : Applet :=
  set_m_dragResizeMode (negb (m_dragResizeMode a)) a.

Definition handleHide (a : Applet) : M Applet :=
  if negb (isValid (m_note a)) then ret a
  else let a := set_m_note (set_status "hidden" (m_note a)) a in
       let! _ := saveNoteData a in
       ret (setVisible false a).

(** [rect()]: the geometry in the applet's own coordinates. *)
Definition rect (a : Applet) : QRectF :=
  mkQRectF 0 0 (rw (geometry a)) (rh (geometry a)).

Definition getResizeHandle (p : QPoint) (a : Applet) : ResizeHandle :=
  if negb (m_dragResizeMode a) then NoHandle
  else
    let margin := 10 in
    let currentGeom := rect a in
    let corner := mkQSize margin margin in
    if Rect.contains p (Rect.make (Rect.topLeft currentGeom) corner) then TopLeft
    else if Rect.contains p
              (Rect.make (point_sub (Rect.topRight currentGeom) (mkQPoint margin 0)) corner)
    then TopRight
    else if Rect.contains p
              (Rect.make (point_sub (Rect.bottomLeft currentGeom) (mkQPoint 0 margin)) corner)
    then BottomLeft
    else if Rect.contains p
              (Rect.make (point_sub (Rect.bottomRight currentGeom) (mkQPoint margin margin)) corner)
    then BottomRight
    else if Rect.contains p
              (mkQRectF (Rect.left currentGeom) (Rect.top currentGeom + margin)
                 margin (rh currentGeom - 2 * margin))
    then Left
    else if Rect.contains p
              (mkQRectF (Rect.right currentGeom - margin) (Rect.top currentGeom + margin)
                 margin (rh currentGeom - 2 * margin))
    then Right
    else if Rect.contains p
              (mkQRectF (Rect.left currentGeom + margin) (Rect.top currentGeom)
                 (rw currentGeom - 2 * margin) margin)
    then Top
    else if Rect.contains p
              (mkQRectF (Rect.left currentGeom + margin) (Rect.bottom currentGeom - margin)
                 (rw currentGeom - 2 * margin) margin)
    then Bottom
    else if Rect.contains p (Rect.adjusted margin margin (- margin) (- margin) currentGeom)
    then Body
    else NoHandle.

(** Press with the left button outside the drag/resize mode: file
    selection or the external editor, which are outside this model. *)
Definition quickLeftClickAction (a : Applet) : Applet := a.

Definition mousePressEvent (ev : MouseEvent) (a : Applet) : Applet :=
  match m_dragResizeMode a, button ev with
  | true, LeftButton =>
      let a := set_m_currentResizeHandle (getResizeHandle (pos ev) a) a in
      if negb (ResizeHandle_eqb (m_currentResizeHandle a) NoHandle) then
        set_m_originalGeometryOnDragStart (geometry a)
          (set_m_dragStartPosition (screenPos ev) a)
      else a
  | false, LeftButton => quickLeftClickAction a
  | _, _ => a
  end.

Definition moves_left (h : ResizeHandle) : bool :=
  match h with TopLeft | Left | BottomLeft => true | _ => false end.
Definition moves_top (h : ResizeHandle) : bool :=
  match h with TopLeft | Top | TopRight => true | _ => false end.
Definition moves_right (h : ResizeHandle) : bool :=
  match h with TopRight | Right | BottomRight => true | _ => false end.
Definition moves_bottom (h : ResizeHandle) : bool :=
  match h with BottomLeft | Bottom | BottomRight => true | _ => false end.

(** Lines 609-631 of [mouseMoveEvent]: the geometry asked for when
    handle [h] has been dragged by [delta] from [original]. *)
Definition newGeometry (h : ResizeHandle) (original : QRectF) (delta : QPoint)
  : QRectF :=
  match h with
  | Body => Rect.translate delta original
  | _ =>
      let g := original in
      let g := if moves_left h then Rect.setLeft (Rect.left original + px delta) g else g in
      let g := if moves_top h then Rect.setTop (Rect.top original + py delta) g else g in
      let g := if moves_right h then Rect.setRight (Rect.right original + px delta) g else g in
      let g := if moves_bottom h then Rect.setBottom (Rect.bottom original + py delta) g else g in
      let g := if rw g <? 50 then Rect.setWidth 50 g else g in
      let g := if rh g <? 30 then Rect.setHeight 30 g else g in
      g
  end.

Definition mouseMoveEvent (ev : MouseEvent) (a : Applet) : Applet :=
  if m_dragResizeMode a && left_down ev then
    match m_currentResizeHandle a with
    | NoHandle => a
    | h =>
        let delta := point_sub (screenPos ev) (m_dragStartPosition a) in
        setPreferredGeometry
          (newGeometry h (m_originalGeometryOnDragStart a) delta) a
    end
  else a.

Definition mouseReleaseEvent (ev : MouseEvent) (a : Applet) : M Applet :=
  match m_dragResizeMode a, button ev, m_currentResizeHandle a with
  | true, LeftButton, NoHandle => ret a
  | true, LeftButton, _ =>
      let a := set_m_note
                 (set_position (toPoint (Rect.topLeft (geometry a))) (m_note a)) a in
      let a := set_m_note
                 (set_size (toSize (Rect.size (geometry a))) (m_note a)) a in
      let! _ := saveNoteData a in
      ret (set_m_currentResizeHandle NoHandle a)
  | _, _, _ => ret a
  end.

End DesktopNotesApplet.

(* ===================================================================== *)
(** ** stylingdialog.cpp and [handleStyling] *)
(* ===================================================================== *)

(** What the user does in the dialog before leaving it. *)
Inductive DialogEvent : Type :=
  | TransparencySlider (value : Z)
  | MarginSlider (value : Z)
  | ChooseColor (picked : option string).  (* None: colour dialog dismissed *)

(** How the dialog is left: by its Ok button, by its Cancel button, or
    by the Escape key or the close button of the window.  The last two
    end in [QDialog::reject()], which the dialog does not override: only
    the Cancel button is connected to [rejectDialog]. *)
Inductive DialogButton : Type := OkButton | CancelButton | Dismissed.

Module StylingDialog.

(** [m_currentStyleRef] is a reference to the applet's [m_note.style]:
    the slots below write the applet itself.  The dialog's own state is
    the copy taken by its constructor. *)
Record t : Type := mk { m_originalStyle : NoteStyle }.

Definition currentStyleRef (a : Applet) : NoteStyle := style (m_note a).
Definition assign (s : NoteStyle) (a : Applet) : Applet :=
  set_m_note (set_style s (m_note a)) a.

(** The constructor copies the style; setting the controls happens
    before the slots are connected and writes nothing. *)
Definition construct (a : Applet) : t := mk (currentStyleRef a).

Definition onTransparencyChanged (value : Z) (a : Applet) : Applet :=
  assign (set_transparency (Double.div (Double.of_int value) Double.hundred)
            (currentStyleRef a)) a.

Definition onMarginChanged (value : Z) (a : Applet) : Applet :=
  assign (set_margin value (currentStyleRef a)) a.

Definition onChooseColorClicked (picked : option string) (a : Applet) : Applet :=
  match picked with
  | Some name => assign (set_backgroundColor name (currentStyleRef a)) a
  | None => a
  end.

Definition handle (e : DialogEvent) (a : Applet) : Applet :=
  match e with
  | TransparencySlider v => onTransparencyChanged v a
  | MarginSlider v => onMarginChanged v a
  | ChooseColor c => onChooseColorClicked c a
  end.

Definition acceptDialog (d : t) (a : Applet) : Applet := a.

Definition rejectDialog (d : t) (a : Applet) : Applet :=
  assign (m_originalStyle d) a.

(** [exec()]: the events in order, then the way out; [true] is Accepted. *)
Definition exec (d : t) (events : list DialogEvent) (b : DialogButton)
    (a : Applet) : bool * Applet :=
  let a := fold_left (λ acc e, handle e acc) events a in
  match b with
  | OkButton => (true, acceptDialog d a)
  | CancelButton => (false, rejectDialog d a)
  | Dismissed => (false, a)   (* QDialog::reject(): [rejectDialog] is not run *)
  end.

End StylingDialog.

Definition handleStyling (events : list DialogEvent) (b : DialogButton)
    (a : Applet) : M Applet :=
  if negb (isValid (m_note a)) then ret a
  else
    let dialog := StylingDialog.construct a in
    let '(accepted, a) := StylingDialog.exec dialog events b a in
    if accepted then
      let! _ := DesktopNotesApplet.saveNoteData a in ret a
    else ret a.

(* ===================================================================== *)
(** ** Several instances on one file *)
(* ===================================================================== *)

(** Each plugin instance is a process of its own with its own connection;
    the instances share the file.  SQLite serialises statements, so an
    instance advances by one store call at a time: first the listing of
    [initializeNewNote], then the rest of it. *)
Inductive Phase : Type :=
  | Starting
  | Scanned (found : option Note)
  | Settled.

Record Instance : Type := mkInstance {
  conn : bool;       (* is this process's connection open? *)
  applet : Applet;
  phase : Phase
}.

Record System : Type := mkSystem { file : World; instances : list Instance }.

Definition step_instance (i : Instance) (f : World) : Instance * World :=
  match phase i with
  | Starting =>
      let '(found, w) := DesktopNotesApplet.scan_pending (set_conn_open (conn i) f) in
      (mkInstance (conn_open w) (applet i) (Scanned found), w)
  | Scanned found =>
      let '(a, w) := DesktopNotesApplet.settle found (applet i) (set_conn_open (conn i) f) in
      (mkInstance (conn_open w) a Settled, w)
  | Settled => (i, f)
  end.

(** Instance number [k] takes its next step. *)
Definition step (k : nat) (s : System) : System :=
  match instances s !! k with
  | Some i =>
      let '(i', f') := step_instance i (file s) in
      mkSystem f' (<[k := i']> (instances s))
  | None => s
  end.

Definition run (schedule : list nat) (s : System) : System :=
  fold_left (λ acc k, step k acc) schedule s.

(** Instance after instance, each running to its end before the next. *)
Definition serial (n : nat) : list nat := flat_map (λ k, [k; k]) (seq 0 n).

(** A new instance with no remembered id, its connection opened by the
    constructor. *)
Definition newcomer (g : QRectF) : Instance :=
  mkInstance true (DesktopNotesApplet.readConfig (constructed None g)) Starting.




(** The status stored for record [r], if the record exists. *)
Definition stored_status (r : Z) (w : World) : option string :=
  match table w with
  | Some t => col_status ∘ cols <$> head (filter (λ row, has_id r row = true) t)
  | None => None
  end.

(* ===================================================================== *)
(** ** Well-formed stores *)
(* ===================================================================== *)

(** Rowids grow along the table, starting above [lo]. *)
Fixpoint ascending (lo : Z) (t : list Row) : bool :=
  match t with
  | [] => true
  | r :: t' => (lo <? col_id r) && ascending (col_id r) t'
  end.

(** A store in working order: the file opens, no statement is going to
    fail, the table exists, and the rowids are positive, growing, at most
    the counter, which is not negative and fits an [int]. *)
Definition wf_table (t : list Row) (q : Z) : bool :=
  ascending 0 t && forallb (λ r, col_id r <=? q) t
  && (0 <=? q) && (q <=? CInt.INT_MAX).

Definition sound (w : World) : bool :=
  medium_ok w
  && match faults w with [] => true | _ => false end
  && match table w with
     | Some t => wf_table t (sqlite_sequence w)
     | None => false
     end.

(** The calls a client can make, and a history of them. *)
Inductive Call : Type :=
  | CallAdd (n : Note)
  | CallUpdate (n : Note)
  | CallGet (i : Z)
  | CallAll
  | CallDelete (i : Z)
  | CallSetStatus (i : Z) (st : string).

Definition call (c : Call) (w : World) : World :=
  match c with
  | CallAdd n => snd (DatabaseManager.addNote n w)
  | CallUpdate n => snd (DatabaseManager.updateNote n w)
  | CallGet i => snd (DatabaseManager.getNoteById i w)
  | CallAll => snd (DatabaseManager.getAllNotes w)
  | CallDelete i => snd (DatabaseManager.deleteNoteById i w)
  | CallSetStatus i st => snd (DatabaseManager.setNoteStatus i st w)
  end.

Definition replay (calls : list Call) (w : World) : World :=
  fold_left (λ acc c, call c acc) calls w.

(** The statement that opening the connection runs first, if any. *)
Definition opening (w : World) : list Stmt :=
  if conn_open w then [] else [CreateTable].

(** The world after an operation on a sound world [w] that ran the
    statements [ss] and left table [t] and counter [q]. *)
Definition after (ss : list Stmt) (t : list Row) (q : Z) (w : World) : World :=
  mkWorld true true (Some t) q [] (trace w ++ opening w ++ ss).

(** The three status values of the data model. *)
Definition valid_status (s : string) : bool :=
  String.eqb s "shown" || String.eqb s "hidden" || String.eqb s "pending_placement".

Definition int_range (n : Z) : bool := (CInt.INT_MIN <=? n) && (n <=? CInt.INT_MAX).

(** A rectangle whose position and extent are C++ [int]s. *)
Definition fits_int (r : QRectF) : bool :=
  int_range (xp r) && int_range (yp r) && int_range (rw r) && int_range (rh r).

(** A record of the data model: one of the three statuses, a transparency
    between 0 and 1, a margin that is not negative, all integers being
    C++ [int]s. *)
Definition valid_note (n : Note) : bool :=
  valid_status (status n)
  && int_range (px (position n)) && int_range (py (position n))
  && int_range (width (size n)) && int_range (height (size n))
  && Double.leb Double.zero (transparency (style n))
  && Double.leb (transparency (style n)) Double.one
  && (0 <=? margin (style n)) && int_range (margin (style n)).

(** Equality of two notes as C++ compares the fields: [==] on doubles. *)
Definition same_fields (a b : Note) : Prop :=
  status a = status b ∧ filepath a = filepath b ∧ position a = position b
  ∧ size a = size b
  ∧ Double.eqb (transparency (style a)) (transparency (style b)) = true
  ∧ backgroundColor (style a) = backgroundColor (style b)
  ∧ margin (style a) = margin (style b).

(** A fresh installation: nothing opened, no table, no fault to come. *)
Definition fresh : World := mkWorld false true None 0 [] [].

Definition pending (n : Note) : Note := set_status "pending_placement" n.

(** The row that [updateNote] writes for an adopted note, and the table
    with it. *)
Definition adopted_row (n : Note) : Row := mkRow (id n) (DatabaseManager.bound (set_status "shown" n)).

Definition adopt_in (n : Note) (t : list Row) : list Row :=
  map (λ r, if has_id (id n) r then adopted_row n else r) t.


(** Is there a row with rowid [i]? *)
Definition present (i : Z) (w : World) : bool :=
  match table w with
  | Some t => existsb (has_id i) t
  | None => false
  end.

(** The statements that change the table. *)
Definition is_write (s : Stmt) : bool :=
  match s with
  | Insert _ | Update _ _ | Delete _ | UpdateStatus _ _ => true
  | CreateTable | SelectById _ | SelectAll => false
  end.

(** A whole gesture: press, the pointer moves, release. *)
Definition gesture (press : MouseEvent) (moves : list MouseEvent)
    (release : MouseEvent) (a : Applet) : M Applet :=
  DesktopNotesApplet.mouseReleaseEvent release
    (fold_left (λ acc ev, DesktopNotesApplet.mouseMoveEvent ev acc) moves
       (DesktopNotesApplet.mousePressEvent press a)).


(* ===================================================================== *)
(** ** Stores and applets used as examples *)
(* ===================================================================== *)

(** An opened store holding the rows [t], the last rowid handed out
    being [q]. *)
Definition store (t : list Row) (q : Z) : World := mkWorld true true (Some t) q [] [].

Definition at_position (x y : Z) (n : Note) : Note := set_position (mkQPoint x y) n.

(** One record, id 5, awaiting placement at (300,100). *)
Definition store_pending_5 : World :=
  store [mkRow 5 (DatabaseManager.bound (pending (at_position 300 100 defaultNote)))] 5.

(** Nine records created one after the other; those with ids 3, 7 and 9
    await placement. *)
Definition store_pending_3_7_9 : World :=
  let add n w := snd (DatabaseManager.addNote n w) in
  let shown := defaultNote in
  let wait := pending defaultNote in
  add wait (add shown (add wait (add shown (add shown (add shown
    (add wait (add shown (add shown fresh)))))))).

(** An applet in drag/resize mode showing note [i] at geometry [g]. *)
Definition in_drag_mode (i : Z) (g : QRectF) : Applet :=
  mkApplet (set_id i defaultNote) (Some i) true g true (mkQPoint 0 0) NoHandle
    (mkQRectF 0 0 0 0).

(** One default record, id 1. *)
Definition store_one : World :=
  store [mkRow 1 (DatabaseManager.bound defaultNote)] 1.

Definition left_press (p sp : QPoint) : MouseEvent := mkMouseEvent LeftButton true p sp.
Definition left_move (p sp : QPoint) : MouseEvent := mkMouseEvent OtherButton true p sp.
Definition left_release (p sp : QPoint) : MouseEvent := mkMouseEvent LeftButton false p sp.

(* ===================================================================== *)
(** ** desktopnotesapplet.cpp: the remaining menu actions and the cursors *)
(* ===================================================================== *)

(** [handleAddNewNote]: a default note is inserted at the position to the
    right of this applet, and, if that went well, a second note awaiting
    placement at the same position.  The applet itself is not changed. *)
Definition handleAddNewNote (a : Applet) : M unit :=
  let currentGeometry := geometry a in
  let newNote :=
    set_position (mkQPoint (Rect.right currentGeometry + 15) (Rect.top currentGeometry))
      defaultNote in
  let! newNoteId := DatabaseManager.addNote newNote in
  if negb (newNoteId =? -1) then
    let pendingNote :=
      set_status "pending_placement"
        (set_style defaultNoteStyle
           (set_size (size defaultNote)
              (set_position (position newNote) defaultNote))) in
    let! pendingNoteId := DatabaseManager.addNote pendingNote in
    ret tt
  else ret tt.

(** [handleDelete]: the row goes, then the applet asks the shell to remove
    it; the result says whether [remove()] was called. *)
Definition handleDelete (a : Applet) : M bool :=
  if negb (isValid (m_note a)) then ret false
  else let noteIdToDelete := id (m_note a) in
       let! _ := DatabaseManager.deleteNoteById noteIdToDelete in
       ret true.

Inductive CursorShape : Type :=
  | ArrowCursor | SizeAllCursor | SizeFDiagCursor | SizeBDiagCursor
  | SizeVerCursor | SizeHorCursor.

(** [updateCursors(mousePos)]: the cursor the applet takes. *)
Definition updateCursors (mousePos : QPoint) (a : Applet) : CursorShape :=
  if negb (m_dragResizeMode a) then ArrowCursor
  else match DesktopNotesApplet.getResizeHandle mousePos a with
       | Body => SizeAllCursor
       | TopLeft => SizeFDiagCursor
       | TopRight => SizeBDiagCursor
       | BottomLeft => SizeBDiagCursor
       | BottomRight => SizeFDiagCursor
       | Top => SizeVerCursor
       | Bottom => SizeVerCursor
       | Left => SizeHorCursor
       | Right => SizeHorCursor
       | NoHandle => ArrowCursor
       end.

(* ===================================================================== *)
(** ** allnotesdialog.cpp: the table of all notes *)
(* ===================================================================== *)

(** What the model reads of a [QModelIndex]. *)
Record QModelIndex : Type := mkQModelIndex {
  ix_model : bool;   (* the index belongs to a model *)
  ix_row : Z;
  ix_column : Z
}.

Inductive ItemDataRole : Type := DisplayRole | EditRole | OtherRole.

Module NotesTableModel.

(** [QModelIndex::isValid]. *)
Definition index_isValid (index : QModelIndex) : bool :=
  ix_model index && (0 <=? ix_row index) && (0 <=? ix_column index).

Definition count (m_notes : list Note) : Z := Z.of_nat (length m_notes).

Definition loadNotes : M (list Note) := DatabaseManager.getAllNotes.

Definition getNoteAt (row : Z) (m_notes : list Note) : Note :=
  if (0 <=? row) && (row <? count m_notes)
  then default defaultNote (m_notes !! Z.to_nat row)
  else defaultNote.

(** [setData]: the result and the list [m_notes] afterwards.  The row of
    the list is written before the store is asked, and stays written
    when the store fails. *)
Definition setData (index : QModelIndex) (value : QVariant) (role : ItemDataRole)
    (m_notes : list Note) : M (bool * list Note) :=
  if negb (index_isValid index)
     || negb (match role with EditRole => true | _ => false end)
     || (count m_notes <=? ix_row index)
  then ret (false, m_notes)
  else
    match m_notes !! Z.to_nat (ix_row index) with
    | None => ret (false, m_notes)
    | Some note =>
        if ix_column index =? 1 then
          let newStatus := Variant.toString value in
          if negb (String.eqb (status note) newStatus)
             && (String.eqb newStatus "shown" || String.eqb newStatus "hidden")
          then
            let m_notes' :=
              <[Z.to_nat (ix_row index) := set_status newStatus note]> m_notes in
            let! stored := DatabaseManager.setNoteStatus (id note) newStatus in
            if stored then ret (true, m_notes') else ret (false, m_notes')
          else ret (false, m_notes)
        else ret (false, m_notes)
    end.

(** [AllNotesDialog::onTableDoubleClicked]: the list [m_notes] afterwards. *)
Definition onTableDoubleClicked (index : QModelIndex) (m_notes : list Note)
  : M (list Note) :=
  if negb (index_isValid index) || negb (ix_column index =? 1) then ret m_notes
  else
    let note := getNoteAt (ix_row index) m_notes in
    if negb (isValid note) then ret m_notes
    else
      let currentStatus := status note in
      let newStatus := if String.eqb currentStatus "shown" then "hidden" else "shown" in
      let! r := setData index (VString newStatus) EditRole m_notes in
      ret (snd r).

End NotesTableModel.

(* ===================================================================== *)
(** ** config.h: where the files live *)
(* ===================================================================== *)

(** What [QStandardPaths] and [QDir::homePath] answer on this machine. *)
Record Locations : Type := mkLocations {
  AppConfigLocation : string;
  GenericConfigLocation : string;
  AppDataLocation : string;
  GenericDataLocation : string;
  homePath : string
}.

Module DesktopNotesConfig.

(** [QString::endsWith]. *)
Definition endsWith (s suffix : string) : bool :=
  bool_decide (String.list_ascii_of_string suffix `suffix_of` String.list_ascii_of_string s).

(** The directory chosen by [getConfigDir]; that it is created when
    missing is not modelled. *)
Definition getConfigDir (l : Locations) : string :=
  let path := AppConfigLocation l in
  if String.eqb path "" then homePath l +:+ "/.config/desktop-notes"
  else if negb (endsWith path "/desktop-notes")
       then GenericConfigLocation l +:+ "/desktop-notes"
       else path.

Definition getDataDir (l : Locations) : string :=
  let path := AppDataLocation l in
  if String.eqb path "" then homePath l +:+ "/.local/share/desktop-notes"
  else if negb (endsWith path "/desktop-notes")
       then GenericDataLocation l +:+ "/desktop-notes"
       else path.

Definition getSettingsFilePath (l : Locations) : string :=
  getConfigDir l +:+ "/settings.ini".

Definition getDatabaseFilePath (l : Locations) : string :=
  getDataDir l +:+ "/notes.db".

End DesktopNotesConfig.

(* ===================================================================== *)
(** ** More stores and predicates for the properties *)
(* ===================================================================== *)

(** A closed connection on a medium that cannot be opened. *)
Definition unavailable (w : World) : bool := negb (conn_open w) && negb (medium_ok w).

(** The failure value of each call, and whether a call returned it. *)
Definition call_failed (c : Call) (w : World) : bool :=
  match c with
  | CallAdd n => fst (DatabaseManager.addNote n w) =? -1
  | CallUpdate n => negb (fst (DatabaseManager.updateNote n w))
  | CallGet i => negb (isValid (fst (DatabaseManager.getNoteById i w)))
  | CallAll => match fst (DatabaseManager.getAllNotes w) with [] => true | _ => false end
  | CallDelete i => negb (fst (DatabaseManager.deleteNoteById i w))
  | CallSetStatus i st => negb (fst (DatabaseManager.setNoteStatus i st w))
  end.

(** The events a slider of the styling dialog can send: the transparency
    slider ranges over 0..100, the margin slider and spin box over 0..50. *)
Definition in_slider_range (e : DialogEvent) : bool :=
  match e with
  | TransparencySlider v => (0 <=? v) && (v <=? 100)
  | MarginSlider v => (0 <=? v) && (v <=? 50)
  | ChooseColor _ => true
  end.

(** The style of a valid note. *)
Definition valid_style (s : NoteStyle) : bool :=
  Double.leb Double.zero (transparency s) && Double.leb (transparency s) Double.one
  && (0 <=? margin s) && int_range (margin s).

(** The note stored under rowid [i], as a read returns it. *)
Definition stored_note (i : Z) (w : World) : option Note :=
  match table w with
  | Some t => DatabaseManager.fetch <$> head (filter (λ row, has_id i row = true) t)
  | None => None
  end.

(** A store that cannot be opened: no directory, no file. *)
Definition offline : World := mkWorld false false None 0 [] [].

(** Is the transparency that the slider value [v] gives between 0 and 1? *)
Definition percent_ok (v : Z) : bool :=
  let d := Double.div (Double.of_int v) Double.hundred in
  Double.leb Double.zero d && Double.leb d Double.one.

(* ===================================================================== *)
(** * Properties *)
(* ===================================================================== *)

(** ** The store operations on a sound world *)

(** A computation whose first part is known can be stepped. *)
Lemma bind_run {A B : Type} (m : M A) (k : A → M B) w a w' :
m w = (a, w') → bind m k w = k a w'.
Proof. unfold bind. by intros ->. Qed.

Lemma sound_inv (w : World) :
  sound w = true →
  ∃ t, table w = Some t ∧ medium_ok w = true ∧ faults w = []
       ∧ wf_table t (sqlite_sequence w) = true.
Proof.
  unfold sound. intros H.
  destruct (medium_ok w); [|done]. destruct (faults w); [|done].
  destruct (table w) as [t|]; [|done]. eauto.
Qed.

Ltac crush_store w :=
  let H := fresh in
  let t := fresh "t" in
  let Ht := fresh in
  intros H t Ht; destruct (sound_inv w H) as (? & ? & ? & ? & ?);
  destruct w as [c ? ? ? ? ?]; cbn in *; simplify_eq;
  unfold after, opening;
  destruct c; cbn; unfold ret, ran, set_faults, set_conn_open; cbn;
  rewrite ?app_nil_r, <- ?app_assoc; try reflexivity.

Section SoundStore.

Import DatabaseManager.

Lemma not_open_sound w :
  sound w = true →
  ∀ t, table w = Some t → not_open w = (false, after [] t (sqlite_sequence w) w).
Proof.
  crush_store w.
Qed.

Lemma addNote_sound (n : Note) w :
  sound w = true →
  ∀ t, table w = Some t →
  let q := sqlite_sequence w in
  addNote n w
  = (CInt.wrap (q + 1),
     after [Insert (bound n)] (t ++ [mkRow (q + 1) (bound n)]) (q + 1) w).
Proof.
  crush_store w.
Qed.

Lemma updateNote_sound (n : Note) w :
  sound w = true →
  ∀ t, table w = Some t → id n ≠ -1 →
  updateNote n w
  = (true,
     after [Update (id n) (bound n)]
       (map (λ r, if has_id (id n) r then mkRow (id n) (bound n) else r) t)
       (sqlite_sequence w) w).
Proof.
  unfold updateNote.
  crush_store w; intros; destruct (Z.eqb_spec (id n) (-1));
    try done; cbn; unfold ret, ran, set_faults, set_conn_open; cbn;
    rewrite ?app_nil_r, <- ?app_assoc; reflexivity.
Qed.

Lemma getNoteById_sound (i : Z) w :
  sound w = true →
  ∀ t, table w = Some t →
  getNoteById i w
  = (match filter (λ r, has_id i r = true) t with
     | row :: _ => fetch row
     | [] => defaultNote
     end,
     after [SelectById i] t (sqlite_sequence w) w).
Proof.
  crush_store w; destruct (filter (λ r, has_id i r = true) _); reflexivity.
Qed.

Lemma getAllNotes_sound w :
  sound w = true →
  ∀ t, table w = Some t →
  getAllNotes w
  = (map fetch t, after [SelectAll; SelectAll] t (sqlite_sequence w) w).
Proof.
  crush_store w.
Qed.

Lemma deleteNoteById_sound (i : Z) w :
  sound w = true →
  ∀ t, table w = Some t →
  deleteNoteById i w
  = (true,
     after [Delete i] (filter (λ r, has_id i r = false) t) (sqlite_sequence w) w).
Proof.
  crush_store w.
Qed.

Lemma setNoteStatus_sound (i : Z) (st : string) w :
  sound w = true →
  ∀ t, table w = Some t →
  setNoteStatus i st w
  = (true,
     after [UpdateStatus i st]
       (map (λ r, if has_id i r then set_row_status st r else r) t)
       (sqlite_sequence w) w).
Proof.
  crush_store w.
Qed.

Lemma openDb_sound w :
sound w = true →
∀ t, table w = Some t → openDb w = (true, after [] t (sqlite_sequence w) w).
Proof.
  crush_store w.
Qed.

Lemma after_after ss1 t1 q1 ss2 t2 q2 w :
after ss2 t2 q2 (after ss1 t1 q1 w) = after (ss1 ++ ss2) t2 q2 w.
Proof.
  unfold after, opening. cbn. by rewrite <- !app_assoc.
Qed.

Lemma sound_after ss t q w : sound (after ss t q w) = wf_table t q.
Proof. reflexivity. Qed.

Lemma sound_wf w t :
sound w = true → table w = Some t → wf_table t (sqlite_sequence w) = true.
Proof.
  intros Hs Ht. destruct (sound_inv w Hs) as (t' & Ht' & _ & _ & Hwf). congruence.
Qed.

Lemma sound_after_same ss w t :
sound w = true → table w = Some t → sound (after ss t (sqlite_sequence w) w) = true.
Proof.
  intros Hs Ht. rewrite sound_after. by apply sound_wf.
Qed.

Lemma after_table ss t q w : table (after ss t q w) = Some t.
Proof. reflexivity. Qed.

Lemma after_sequence ss t q w : sqlite_sequence (after ss t q w) = q.
Proof. reflexivity. Qed.

End SoundStore.

(** ** The status column takes any text *)

Section Status.

Import DatabaseManager.

Lemma stored_status_set i st t :
existsb (has_id i) t = true →
head (filter (λ row, has_id i row = true)
        (map (λ row, if has_id i row then set_row_status st row else row) t))
= Some (set_row_status st
          (default (mkRow i (bound defaultNote))
             (head (filter (λ row, has_id i row = true) t)))).
Proof.
  induction t as [|r t IH]; [done|]. cbn [existsb map].
  rewrite !filter_cons. destruct (has_id i r) eqn:E.
  - intros _. assert (E' : has_id i (set_row_status st r) = true) by exact E.
    destruct (decide (has_id i (set_row_status st r) = true)); [|done].
    destruct (decide (true = true)); done.
  - cbn. intros H. destruct (decide (has_id i r = true)); [congruence|].
    destruct (decide (false = true)); [done|]. auto.
Qed.

Lemma map_status_absent i st t :
existsb (has_id i) t = false →
map (λ row, if has_id i row then set_row_status st row else row) t = t.
Proof.
  induction t as [|r t IH]; [done|]. cbn [existsb map].
  intros [-> Ht]%orb_false_iff. by rewrite IH.
Qed.

(** C4, as the code has it.  [setNoteStatus] does not look at the text it
    is given: on a store in working order it succeeds for every id and
    every status text that is not empty, rewrites the status column of
    the row with that id (if there is one) to exactly that text, and
    leaves every other row and column as it was.  (The empty text is
    left out because it also stands for the null [QString], which is
    bound as NULL and refused by the NOT NULL column.) *)
Theorem setNoteStatus_stores_any_text (i : Z) (st : string) (w : World) (t : list Row) :
sound w = true → table w = Some t → st ≠ "" →
let r := setNoteStatus i st w in
fst r = true
∧ table (snd r)
  = Some (map (λ row, if has_id i row then set_row_status st row else row) t)
∧ (present i w = true → stored_status i (snd r) = Some st)
∧ (present i w = false → table (snd r) = table w).
Proof.
  intros Hs Ht _ r. subst r. rewrite (setNoteStatus_sound i st w Hs t Ht).
  cbn [fst snd]. rewrite after_table. unfold present, stored_status.
  rewrite Ht, after_table. repeat split.
  - intros Hp. by rewrite stored_status_set.
  - intros Hp. by rewrite map_status_absent.
Qed.

(** The status of record 1 set to "archived". *)
Lemma setNoteStatus_stores_any_text_witness :
let r := setNoteStatus 1 "archived" store_one in
fst r = true ∧ stored_status 1 (snd r) = Some "archived".
Proof.
  assert (Hne : "archived" ≠ "") by discriminate.
  destruct (setNoteStatus_stores_any_text 1 "archived" store_one
              [mkRow 1 (bound defaultNote)] eq_refl eq_refl Hne)
    as (H1 & _ & H2 & _).
  split; [exact H1|]. apply H2. reflexivity.
Defined.

(** C4 fails as stated: "archived" is none of the three values, and yet
    [setNoteStatus 1 "archived"] succeeds and changes the stored status
    from "shown" to "archived". *)
Lemma setNoteStatus_archived_counterexample :
let r := setNoteStatus 1 "archived" store_one in
valid_status "archived" = false
∧ stored_status 1 store_one = Some "shown"
∧ fst r = true
∧ stored_status 1 (snd r) = Some "archived"
∧ stored_status 1 (snd r) ≠ stored_status 1 store_one.
Proof.
  vm_compute. repeat split. discriminate.
Qed.

End Status.

(** ** Geometry of a gesture *)

Lemma wrap_in_range_bool n : int_range n = true → CInt.wrap n = n.
Proof.
  unfold int_range, CInt.INT_MIN, CInt.INT_MAX, CInt.wrap.
  intros [H1%Z.leb_le H2%Z.leb_le]%andb_prop. rewrite Z.mod_small; lia.
Qed.

Section Gesture.

Import DesktopNotesApplet.



Lemma newGeometry_body original delta :
  newGeometry Body original delta = Rect.translate delta original.
Proof. reflexivity. Qed.


(** While a handle is held, the moves only replace the geometry. *)
Lemma moves_keep_drag moves : ∀ a,
  let a' := fold_left (λ acc ev, mouseMoveEvent ev acc) moves a in
  m_note a' = m_note a ∧ config_noteId a' = config_noteId a
  ∧ visible a' = visible a
  ∧ m_dragResizeMode a' = m_dragResizeMode a
  ∧ m_dragStartPosition a' = m_dragStartPosition a
  ∧ m_currentResizeHandle a' = m_currentResizeHandle a
  ∧ m_originalGeometryOnDragStart a' = m_originalGeometryOnDragStart a.
Proof.
  induction moves as [|ev moves IH]; intros a; cbn; [repeat split|].
  specialize (IH (mouseMoveEvent ev a)). cbn in IH.
  assert (Hstep : m_note (mouseMoveEvent ev a) = m_note a
            ∧ config_noteId (mouseMoveEvent ev a) = config_noteId a
            ∧ visible (mouseMoveEvent ev a) = visible a
            ∧ m_dragResizeMode (mouseMoveEvent ev a) = m_dragResizeMode a
            ∧ m_dragStartPosition (mouseMoveEvent ev a) = m_dragStartPosition a
            ∧ m_currentResizeHandle (mouseMoveEvent ev a) = m_currentResizeHandle a
            ∧ m_originalGeometryOnDragStart (mouseMoveEvent ev a)
              = m_originalGeometryOnDragStart a).
  { unfold mouseMoveEvent.
    destruct (m_dragResizeMode a && left_down ev); [|repeat split].
    destruct (m_currentResizeHandle a) eqn:E; cbn; rewrite ?E; repeat split. }
  destruct IH as (-> & -> & -> & -> & -> & -> & ->). exact Hstep.
Qed.

(** After the last move with the button down, the geometry is the one
    computed from the geometry at press time and the whole displacement. *)
Lemma moves_geometry moves last a :
  m_dragResizeMode a = true → left_down last = true →
  m_currentResizeHandle a ≠ NoHandle →
  geometry (fold_left (λ acc ev, mouseMoveEvent ev acc) (moves ++ [last]) a)
  = newGeometry (m_currentResizeHandle a) (m_originalGeometryOnDragStart a)
      (point_sub (screenPos last) (m_dragStartPosition a)).
Proof.
  intros Hmode Hdown Hh. rewrite fold_left_app. cbn.
  destruct (moves_keep_drag moves a) as (_ & _ & _ & Hm & Hs & Hc & Ho).
  cbn in *. unfold mouseMoveEvent at 1.
  rewrite Hm, Hmode, Hdown, Hc, Hs, Ho. cbn.
  destruct (m_currentResizeHandle a); done.
Qed.

Lemma mouseReleaseEvent_commit ev a w :
  m_dragResizeMode a = true → button ev = LeftButton →
  m_currentResizeHandle a ≠ NoHandle →
  let n := set_size (toSize (Rect.size (geometry a)))
             (set_position (toPoint (Rect.topLeft (geometry a))) (m_note a)) in
  mouseReleaseEvent ev a w
  = (set_m_currentResizeHandle NoHandle (set_m_note n a),
     if isValid n then snd (DatabaseManager.updateNote n w) else w).
Proof.
  intros Hmode Hev Hh n. unfold mouseReleaseEvent. rewrite Hmode, Hev.
  destruct (m_currentResizeHandle a) eqn:E; [done|..];
    cbn; unfold saveNoteData, bind, ret; cbn; fold n;
    (destruct (isValid n); cbn;
     [destruct (DatabaseManager.updateNote n w); reflexivity | reflexivity]).
Qed.

(** Narrowing to [int] keeps a rectangle that fits. *)
Lemma narrow_fits g :
  fits_int g = true →
  toPoint (Rect.topLeft g) = Rect.topLeft g ∧ toSize (Rect.size g) = Rect.size g.
Proof.
  destruct g as [x y w h]. unfold fits_int. cbn [xp yp rw rh].
  intros [[[Hx Hy]%andb_prop Hw]%andb_prop Hh]%andb_prop.
  unfold toPoint, toSize, Rect.topLeft, Rect.size.
  cbn [px py width height xp yp rw rh].
  by rewrite (wrap_in_range_bool x Hx), (wrap_in_range_bool y Hy),
    (wrap_in_range_bool w Hw), (wrap_in_range_bool h Hh).
Qed.

(** What a gesture on a handle commits: the rectangle computed from the
    geometry at press time and the displacement of the last move goes
    into the note, and the note goes to the store through [updateNote]. *)
Lemma gesture_commit a press moves last release w :
  m_dragResizeMode a = true → button press = LeftButton →
  left_down last = true → button release = LeftButton →
  getResizeHandle (pos press) a ≠ NoHandle →
  let h := getResizeHandle (pos press) a in
  let g := newGeometry h (geometry a)
             (point_sub (screenPos last) (screenPos press)) in
  let n := set_size (toSize (Rect.size g))
             (set_position (toPoint (Rect.topLeft g)) (m_note a)) in
  let r := gesture press (moves ++ [last]) release a w in
  m_note (fst r) = n ∧ geometry (fst r) = g
  ∧ m_currentResizeHandle (fst r) = NoHandle
  ∧ snd r = (if isValid n then snd (DatabaseManager.updateNote n w) else w).
Proof.
  intros Hmode Hpress Hdown Hrel Hh h g n r.
  set (a1 := mousePressEvent press a).
  assert (H1 : m_note a1 = m_note a ∧ m_dragResizeMode a1 = true
               ∧ m_dragStartPosition a1 = screenPos press
               ∧ m_currentResizeHandle a1 = h
               ∧ m_originalGeometryOnDragStart a1 = geometry a).
  { subst a1. unfold mousePressEvent. rewrite Hmode, Hpress. cbn.
    fold h. destruct h eqn:E; cbn; try done; rewrite ?Hmode; done. }
  destruct H1 as (Hn1 & Hm1 & Hs1 & Hh1 & Ho1).
  set (a2 := fold_left (λ acc ev, mouseMoveEvent ev acc) (moves ++ [last]) a1).
  assert (Hg2 : geometry a2 = g).
  { subst a2. rewrite moves_geometry; [|done|done|by rewrite Hh1].
    by rewrite Hh1, Ho1, Hs1. }
  destruct (moves_keep_drag (moves ++ [last]) a1)
    as (Hn2 & _ & _ & Hm2 & _ & Hh2 & _).
  fold a2 in Hn2, Hm2, Hh2. cbn in Hn2, Hm2, Hh2.
  assert (Hh2' : m_currentResizeHandle a2 ≠ NoHandle) by (by rewrite Hh2, Hh1).
  assert (Hm2' : m_dragResizeMode a2 = true) by (by rewrite Hm2).
  assert (Hnote :
    set_size (toSize (Rect.size (geometry a2)))
      (set_position (toPoint (Rect.topLeft (geometry a2))) (m_note a2)) = n).
  { by rewrite Hg2, Hn2, Hn1. }
  assert (Hr : r = mouseReleaseEvent release a2 w) by reflexivity.
  rewrite Hr, (mouseReleaseEvent_commit release a2 w Hm2' Hrel Hh2'), Hnote.
  cbn. done.
Qed.

End Gesture.

(** ** An absent id reads as the default note *)

Section NotFound.

Import DatabaseManager.

Lemma filter_has_id_absent i t :
  existsb (has_id i) t = false → filter (λ r, has_id i r = true) t = [].
Proof.
  induction t as [|r t IH]; [done|]. cbn [existsb].
  intros [Hr Ht]%orb_false_iff. rewrite filter_cons.
  destruct (decide (has_id i r = true)); [congruence|auto].
Qed.

(** C10.  Reading an id that no row carries returns the default
    constructed note, whatever the state of the store: id -1 (so
    [isValid] is false), status "shown", no file path, position (50,50),
    size (200,150) and the default style (opaque, "#FFFFE0", margin 10). *)
Theorem getNoteById_absent_is_default (i : Z) (w : World) :
  present i w = false →
  fst (getNoteById i w)
  = mkNote (-1) "shown" "" (mkQPoint 50 50) (mkQSize 200 150)
      (mkNoteStyle (S754_finite false 4503599627370496 (-52)) "#FFFFE0" 10)
  ∧ fst (getNoteById i w) = defaultNote
  ∧ isValid (fst (getNoteById i w)) = false.
Proof.
  intros Habsent.
  assert (Hd : fst (getNoteById i w) = defaultNote).
  { destruct w as [c m tb q f tr]. unfold present in Habsent. cbn in Habsent.
    unfold getNoteById, not_open, openDb, initializeDatabase, open_file,
      isOpen, exec, bind, ret.
    destruct c, m, tb as [t|], f as [|[] [|[] f]]; cbn;
      rewrite ?filter_has_id_absent by done; reflexivity. }
  rewrite Hd. repeat split.
Qed.

(** Id 7 in the store that holds only record 5. *)
Lemma getNoteById_absent_is_default_witness :
  present 7 store_pending_5 = false
  ∧ fst (getNoteById 7 store_pending_5) = defaultNote.
Proof.
  split; [reflexivity|].
  apply (getNoteById_absent_is_default 7 store_pending_5). reflexivity.
Defined.

End NotFound.

(** ** Drag and resize: what is committed *)

Section DragResize.

Import DesktopNotesApplet.




(** C6, as the code has it.  Dragging the top-left handle of the
    rectangle (100,100,200,150) by (-1000,-1000) commits the rectangle
    (-900,-900,1200,1150): the left and top edges follow the pointer,
    the right and bottom edges stay at 300 and 250, and nothing is
    clamped. *)
Theorem topleft_drag_scenario a press moves last release w :
  m_dragResizeMode a = true → geometry a = mkQRectF 100 100 200 150 →
  button press = LeftButton → getResizeHandle (pos press) a = TopLeft →
  left_down last = true →
  point_sub (screenPos last) (screenPos press) = mkQPoint (-1000) (-1000) →
  button release = LeftButton →
  let r := gesture press (moves ++ [last]) release a w in
  let committed := Rect.make (position (m_note (fst r))) (size (m_note (fst r))) in
  committed = mkQRectF (-900) (-900) 1200 1150
  ∧ Rect.right committed = Rect.right (geometry a)
  ∧ Rect.bottom committed = Rect.bottom (geometry a)
  ∧ snd r = (if isValid (m_note (fst r))
             then snd (DatabaseManager.updateNote (m_note (fst r)) w) else w).
Proof.
  intros Hmode Hgeo Hpress Hh Hdown Hdelta Hrel r committed.
  assert (Hh' : getResizeHandle (pos press) a ≠ NoHandle) by (by rewrite Hh).
  destruct (gesture_commit a press moves last release w Hmode Hpress Hdown Hrel Hh')
    as (Hn & _ & _ & Hw).
  fold r in Hn, Hw. cbn zeta in Hn, Hw. rewrite <- Hn in Hw.
  rewrite Hh, Hgeo, Hdelta in Hn.
  assert (Hc : committed = mkQRectF (-900) (-900) 1200 1150).
  { subst committed. rewrite Hn. reflexivity. }
  rewrite Hc, Hgeo. repeat split. exact Hw.
Qed.

(** The walk-through itself: press at the corner, one move, release. *)
Lemma topleft_drag_scenario_witness :
  let r := gesture (left_press (mkQPoint 2 2) (mkQPoint 102 102))
             [left_move (mkQPoint 2 2) (mkQPoint (-898) (-898))]
             (left_release (mkQPoint 2 2) (mkQPoint (-898) (-898)))
             (in_drag_mode 1 (mkQRectF 100 100 200 150)) store_one in
  Rect.make (position (m_note (fst r))) (size (m_note (fst r)))
  = mkQRectF (-900) (-900) 1200 1150.
Proof.
  intros r.
  apply (topleft_drag_scenario
           (in_drag_mode 1 (mkQRectF 100 100 200 150))
           (left_press (mkQPoint 2 2) (mkQPoint 102 102)) []
           (left_move (mkQPoint 2 2) (mkQPoint (-898) (-898)))
           (left_release (mkQPoint 2 2) (mkQPoint (-898) (-898)))
           store_one); reflexivity.
Defined.

(** C6 fails as stated: the committed rectangle is not 50 wide and 30
    high. *)
Lemma topleft_drag_counterexample :
  let r := gesture (left_press (mkQPoint 2 2) (mkQPoint 102 102))
             [left_move (mkQPoint 2 2) (mkQPoint (-898) (-898))]
             (left_release (mkQPoint 2 2) (mkQPoint (-898) (-898)))
             (in_drag_mode 1 (mkQRectF 100 100 200 150)) store_one in
  getResizeHandle (mkQPoint 2 2) (in_drag_mode 1 (mkQRectF 100 100 200 150)) = TopLeft
  ∧ size (m_note (fst r)) = mkQSize 1200 1150
  ∧ ¬ (width (size (m_note (fst r))) = 50 ∧ height (size (m_note (fst r))) = 30).
Proof.
  split; [reflexivity|]. split; [reflexivity|].
  vm_compute. intros [H _]. discriminate.
Qed.

End DragResize.

(** ** The styling dialog *)

Section Styling.

Import DatabaseManager.

Lemma assign_assign s1 s2 a :
StylingDialog.assign s2 (StylingDialog.assign s1 a) = StylingDialog.assign s2 a.
Proof. reflexivity. Qed.

Lemma assign_current a : StylingDialog.assign (style (m_note a)) a = a.
Proof. destruct a as [[] ? ? ? ? ? ? ?]. reflexivity. Qed.

(** The slots of the dialog write the style of the applet's note and
    nothing else. *)
Lemma handle_assigns e a :
∃ s, StylingDialog.handle e a = StylingDialog.assign s a.
Proof.
  destruct e as [v|v|[c|]]; cbn; eauto.
  exists (style (m_note a)). by rewrite assign_current.
Qed.

Lemma events_assign events : ∀ a,
∃ s, fold_left (λ acc e, StylingDialog.handle e acc) events a
     = StylingDialog.assign s a.
Proof.
  induction events as [|e events IH]; intros a; cbn.
  - exists (style (m_note a)). by rewrite assign_current.
  - destruct (handle_assigns e a) as [s1 ->].
    destruct (IH (StylingDialog.assign s1 a)) as [s2 ->].
    exists s2. apply assign_assign.
Qed.

(** The two buttons.  Whatever was edited in the dialog, the Cancel
    button gives back the applet exactly as it was, style included, and
    the world is untouched: no statement ran.  The Ok button keeps the
    edited style and calls [updateNote] once with the note carrying it;
    on an open store in working order that is exactly one UPDATE of the
    note's row. *)
Lemma handleStyling_buttons (events : list DialogEvent) (a : Applet) (w : World) :
handleStyling events CancelButton a w = (a, w)
∧ (isValid (m_note a) = true →
   let a' := fold_left (λ acc e, StylingDialog.handle e acc) events a in
   handleStyling events OkButton a w = (a', snd (updateNote (m_note a') w))
   ∧ id (m_note a') = id (m_note a)
   ∧ (sound w = true → conn_open w = true →
      trace (snd (handleStyling events OkButton a w))
      = trace w ++ [Update (id (m_note a)) (bound (m_note a'))])).
Proof.
  unfold handleStyling, StylingDialog.exec, StylingDialog.construct,
    StylingDialog.rejectDialog, StylingDialog.acceptDialog,
    StylingDialog.currentStyleRef.
  destruct (events_assign events a) as [s Hs]. rewrite Hs.
  split.
  - destruct (isValid (m_note a)); [|reflexivity].
    cbn. by rewrite assign_assign, assign_current.
  - intros Hv. rewrite Hv. cbn.
    assert (Hid : id (m_note (StylingDialog.assign s a)) = id (m_note a)) by reflexivity.
    assert (Hv' : isValid (m_note (StylingDialog.assign s a)) = true) by exact Hv.
    unfold DesktopNotesApplet.saveNoteData, bind, ret. rewrite Hv'.
    cbn [negb m_note StylingDialog.assign set_m_note] in *.
    destruct (updateNote (set_style s (m_note a)) w) as [ok w'] eqn:Eu.
    cbn [fst snd]. split; [reflexivity|]. split; [exact Hid|].
    intros Hsound Hopen. destruct (sound_inv w Hsound) as (t & Ht & _).
    rewrite (updateNote_sound _ w Hsound t Ht) in Eu.
    + injection Eu as _ <-. cbn. unfold opening. by rewrite Hopen.
    + rewrite Hid. unfold isValid in Hv. by destruct (Z.eqb_spec (id (m_note a)) (-1)).
Qed.

(** Escape and the close button of the window.  The dialog is left as
    Rejected without [rejectDialog] having run: the edits stay in the
    applet, and nothing is saved. *)
Lemma handleStyling_dismissed (events : list DialogEvent) (a : Applet) (w : World) :
isValid (m_note a) = true →
handleStyling events Dismissed a w
= (fold_left (λ acc e, StylingDialog.handle e acc) events a, w).
Proof.
  intros Hv. unfold handleStyling, StylingDialog.exec. by rewrite Hv.
Qed.

(** C9: the code breaks the claim.  Note 1 has the default style; the
    transparency, the colour and the margin are edited in the dialog.
    Left by the Cancel button, the dialog gives back the applet as it
    was, as the claim says and as the comment in [handleStyling]
    expects.  Left by Escape or by closing its window, [handleStyling]
    takes its cancelled branch as well, and no statement runs, but the
    applet keeps the edited style: the style from before the dialog is
    not restored. *)
Theorem styling_dismissed_keeps_edits :
let a := in_drag_mode 1 (mkQRectF 100 100 200 150) in
let events := [TransparencySlider 40; ChooseColor (Some "#336699"); MarginSlider 25] in
let r := handleStyling events Dismissed a store_one in
style (m_note a) = defaultNoteStyle
∧ style (m_note (fst r))
  = mkNoteStyle (Double.div (Double.of_int 40) Double.hundred) "#336699" 25
∧ style (m_note (fst r)) ≠ style (m_note a)
∧ snd r = store_one
∧ handleStyling events CancelButton a store_one = (a, store_one)
∧ trace (snd (handleStyling events OkButton a store_one))
  = [Update 1 (bound (m_note (fst r)))].
Proof.
  intros a events r.
  assert (Er : r = (fold_left (λ acc e, StylingDialog.handle e acc) events a, store_one)).
  { subst r. by apply handleStyling_dismissed. }
  destruct (handleStyling_buttons events a store_one) as [Hc Hok].
  destruct (Hok eq_refl) as (_ & _ & Ht).
  rewrite Er. cbn [fst snd].
  split; [reflexivity|]. split; [reflexivity|].
  split; [vm_compute; discriminate|]. split; [reflexivity|].
  split; [exact Hc|]. exact (Ht eq_refl eq_refl).
Qed.

End Styling.

(** ** Start-up with a remembered id *)

Section Remembered.

Import DatabaseManager DesktopNotesApplet.

Lemma loadNoteData_absent a w t :
sound w = true → table w = Some t →
isValid (m_note a) = true → present (id (m_note a)) w = false →
loadNoteData a w
= (set_m_note (set_filepath "" (m_note a)) a,
   after [SelectById (id (m_note a))] t (sqlite_sequence w) w).
Proof.
  intros Hs Ht Hv Hp. unfold loadNoteData. rewrite Hv. cbn [negb].
  erewrite bind_run by (by apply getNoteById_sound).
  unfold present in Hp. rewrite Ht in Hp.
  by rewrite (filter_has_id_absent _ t Hp).
Qed.

(** C8, as the code has it.  An instance that starts with a remembered id
    whose row is gone does not enter the adoption protocol: it keeps the
    remembered id in its note and in its configuration slot, its note is
    otherwise the default one with an empty file path, and the only
    statement it runs is the SELECT of that id; table and counter are as
    before, so no pending record is claimed and no record is created. *)
Theorem remembered_id_not_found_keeps_id (c : Z) (g : QRectF) (w : World) (t : list Row) :
sound w = true → table w = Some t → c ≠ -1 → present c w = false →
let r := start (Some c) g w in
m_note (fst r) = set_id c defaultNote
∧ config_noteId (fst r) = Some c
∧ snd r = after [SelectById c] t (sqlite_sequence w) w
∧ filter is_write (trace (snd r)) = filter is_write (trace w).
Proof.
  intros Hs Ht Hc Hp r.
  assert (Hv : isValid (set_id c defaultNote) = true).
  { unfold isValid. cbn. by destruct (Z.eqb_spec c (-1)). }
  assert (E : r = (set_m_note (set_filepath "" (set_id c defaultNote))
                     (readConfig (constructed (Some c) g)),
                   after [SelectById c] t (sqlite_sequence w) w)).
  { subst r. unfold start, init.
    set (a0 := readConfig (constructed (Some c) g)).
    change (m_note a0) with (set_id c defaultNote). rewrite Hv. cbn [negb].
    erewrite bind_run by (by apply openDb_sound).
    erewrite bind_run by reflexivity.
    erewrite bind_run.
    2:{ apply openDb_sound with (t := t); [by apply sound_after_same|reflexivity]. }
    rewrite after_after, after_sequence.
    erewrite bind_run.
    2:{ apply loadNoteData_absent with (t := t).
        - by apply sound_after_same.
        - reflexivity.
        - exact Hv.
        - unfold present in *. by rewrite Ht in Hp. }
    rewrite after_after. reflexivity. }
  rewrite E. cbn [fst snd]. repeat split.
  unfold after, opening. cbn. rewrite !filter_app.
  destruct (conn_open w); cbn; by rewrite ?app_nil_r.
Qed.

(** The missing id 42 remembered on the store whose record 5 awaits
    placement. *)
Lemma remembered_id_not_found_keeps_id_witness :
let r := start (Some 42) (mkQRectF 0 0 200 150) store_pending_5 in
m_note (fst r) = set_id 42 defaultNote
∧ snd r = after [SelectById 42] [mkRow 5 (bound (pending (at_position 300 100 defaultNote)))]
            5 store_pending_5.
Proof.
  intros r.
  destruct (remembered_id_not_found_keeps_id 42 (mkQRectF 0 0 200 150)
              store_pending_5
              [mkRow 5 (bound (pending (at_position 300 100 defaultNote)))]
              eq_refl eq_refl) as (H1 & _ & H2 & _).
  - discriminate.
  - reflexivity.
  - split; [exact H1|exact H2].
Defined.

(** C8 fails as stated.  With record 5 awaiting placement, an instance
    that remembers the missing id 42 ends up with id 42 and leaves record
    5 pending, whereas an instance that remembers nothing adopts record 5. *)
Lemma remembered_id_not_found_counterexample :
let g := mkQRectF 0 0 200 150 in
let remembered := start (Some 42) g store_pending_5 in
let unremembered := start None g store_pending_5 in
present 42 store_pending_5 = false
∧ id (m_note (fst remembered)) = 42
∧ stored_status 5 (snd remembered) = Some "pending_placement"
∧ table (snd remembered) = table store_pending_5
∧ id (m_note (fst unremembered)) = 5
∧ stored_status 5 (snd unremembered) = Some "shown"
∧ fst remembered ≠ fst unremembered.
Proof.
  vm_compute. repeat split. discriminate.
Qed.

End Remembered.

(** ** Integers through doubles and JSON text *)

Lemma digits2_iter_xO p k :
Z.pos (digits2_pos (Pos.iter xO p k)) = Z.pos (digits2_pos p) + Z.pos k.
Proof.
  induction k as [|k IH] using Pos.peano_ind.
  - cbn. lia.
  - rewrite Pos.iter_succ. cbn [digits2_pos]. lia.
Qed.

Lemma iter_xO_value p k : Z.pos (Pos.iter xO p k) = Z.pos p * 2 ^ Z.pos k.
Proof.
  induction k as [|k IH] using Pos.peano_ind.
  - cbn. lia.
  - rewrite Pos.iter_succ, Pos2Z.inj_succ, Z.pow_succ_r by lia.
    rewrite Pos2Z.inj_xO, IH. lia.
Qed.

Lemma digits2_lower p : 2 ^ (Z.pos (digits2_pos p) - 1) <= Z.pos p.
Proof.
  induction p as [p IH|p IH|]; cbn [digits2_pos].
  - rewrite Pos2Z.inj_succ.
    replace (Z.succ (Z.pos (digits2_pos p)) - 1) with (Z.succ (Z.pos (digits2_pos p) - 1)) by lia.
    rewrite Z.pow_succ_r by lia. lia.
  - rewrite Pos2Z.inj_succ.
    replace (Z.succ (Z.pos (digits2_pos p)) - 1) with (Z.succ (Z.pos (digits2_pos p) - 1)) by lia.
    rewrite Z.pow_succ_r by lia. lia.
  - cbn. lia.
Qed.

Lemma digits2_int p : Z.pos p <= 2 ^ 31 → Z.pos (digits2_pos p) <= 32.
Proof.
  intros Hp. pose proof (digits2_lower p) as Hl.
  destruct (Z.le_gt_cases (Z.pos (digits2_pos p)) 32) as [|Hgt]; [done|].
  assert (2 ^ 32 <= 2 ^ (Z.pos (digits2_pos p) - 1)) by (apply Z.pow_le_mono_r; lia).
  lia.
Qed.

Lemma binary_round_aux_exact s m e :
Z.pos (digits2_pos m) = 53 → -1074 <= e <= 971 →
binary_round_aux Double.prec Double.emax s (Z.pos m) e loc_Exact = S754_finite s m e.
Proof.
  intros Hd He.
  assert (Hshr : ∀ l, shr_fexp Double.prec Double.emax (Z.pos m) e l
                      = (shr_record_of_loc (Z.pos m) l, e)).
  { intros l. unfold shr_fexp, fexp, emin, Double.prec, Double.emax. cbn [Zdigits2].
    rewrite Hd. replace (Z.max (53 + e - 53) (3 - 1024 - 53)) with e by lia.
    rewrite Z.sub_diag. reflexivity. }
  unfold binary_round_aux. rewrite Hshr. cbn [shr_record_of_loc shr_m loc_of_shr_record round_nearest_even].
  rewrite Hshr. cbn [shr_record_of_loc shr_m].
  unfold Double.emax, Double.prec.
  destruct (Z.leb_spec e (1024 - 53)); [done|lia].
Qed.

Lemma of_int_pos s p :
Z.pos (digits2_pos p) <= 53 →
binary_round Double.prec Double.emax s p 0
= match Z.pos (digits2_pos p) - 53 with
  | Z.neg k => S754_finite s (Pos.iter xO p k) (Z.neg k)
  | _ => S754_finite s p 0
  end.
Proof.
  intros Hd. unfold binary_round, shl_align, fexp, emin, Double.prec, Double.emax.
  rewrite Z.add_0_r.
  replace (Z.max (Z.pos (digits2_pos p) - 53) (3 - 1024 - 53))
    with (Z.pos (digits2_pos p) - 53) by lia.
  rewrite Z.sub_0_r.
  destruct (Z.pos (digits2_pos p) - 53) as [|k|k] eqn:E; [|lia|].
  - apply binary_round_aux_exact; lia.
  - apply binary_round_aux_exact; [|lia].
    rewrite digits2_iter_xO. lia.
Qed.

Lemma wrap_in_range n : CInt.in_range n → CInt.wrap n = n.
Proof.
  unfold CInt.in_range, CInt.INT_MIN, CInt.INT_MAX, CInt.wrap. intros H.
  rewrite Z.mod_small; lia.
Qed.

Lemma round_shift_exact p k : Double.round_shift (Z.pos p * 2 ^ Z.pos k) (Z.pos k) = Z.pos p.
Proof.
  unfold Double.round_shift.
  assert (Hk : 0 < 2 ^ Z.pos k) by (apply Z.pow_pos_nonneg; lia).
  rewrite Z.sgn_pos, Z.abs_eq by nia.
  rewrite Z.mul_1_l. symmetry.
  apply Z.div_unique with (r := 2 ^ Z.pos k); [left|]; nia.
Qed.

Lemma round_shift_opp m k : Double.round_shift (- m) k = - Double.round_shift m k.
Proof.
  unfold Double.round_shift. rewrite Z.sgn_opp, Z.abs_opp. lia.
Qed.

Lemma round64_binary_round s p :
Z.pos (digits2_pos p) <= 53 →
Double.round64 (binary_round Double.prec Double.emax s p 0)
= if s then Z.neg p else Z.pos p.
Proof.
  intros Hd. rewrite of_int_pos by done.
  destruct (Z.pos (digits2_pos p) - 53) as [|k|k] eqn:E.
  - cbn. destruct s; lia.
  - cbn. destruct s; lia.
  - cbn [Double.round64]. cbn [Z.leb Z.compare Z.opp].
    destruct s.
    + change (Z.neg (Pos.iter xO p k)) with (- Z.pos (Pos.iter xO p k)).
      rewrite round_shift_opp, iter_xO_value, round_shift_exact. reflexivity.
    + rewrite iter_xO_value, round_shift_exact. reflexivity.
Qed.

(** An [int] goes through a double unchanged. *)
Lemma round64_of_int n : CInt.in_range n → Double.round64 (Double.of_int n) = n.
Proof.
  unfold CInt.in_range, CInt.INT_MIN, CInt.INT_MAX. intros Hn.
  destruct n as [|p|p]; [reflexivity|..]; unfold Double.of_int, binary_normalize;
    rewrite round64_binary_round; try reflexivity;
    (assert (Z.pos (digits2_pos p) <= 32) by (apply digits2_int; lia); lia).
Qed.

Lemma written_of_int n :
CInt.in_range n →
Json.written (JDouble (Double.of_int n)) = JDouble (Double.of_int n).
Proof.
  unfold CInt.in_range, CInt.INT_MIN, CInt.INT_MAX. intros Hn.
  destruct n as [|p|p]; [reflexivity|..]; unfold Double.of_int, binary_normalize;
    (assert (Z.pos (digits2_pos p) <= 32) by (apply digits2_int; lia));
    rewrite of_int_pos by lia;
    destruct (Z.pos (digits2_pos p) - 53); reflexivity.
Qed.

Lemma eqb_finite_refl s m e : Double.eqb (S754_finite s m e) (S754_finite s m e) = true.
Proof.
  unfold Double.eqb, SFeqb, SFcompare.
  rewrite Z.compare_refl.
  change (Pos.compare_cont Eq m m) with (Pos.compare m m).
  rewrite Pos.compare_refl. by destruct s.
Qed.

(** A transparency between 0 and 1 is a number that JSON text carries:
    what is read back compares equal to what was written. *)
Lemma written_transparency d :
Double.leb Double.zero d = true → Double.leb d Double.one = true →
∃ d', Json.written (JDouble d) = JDouble d' ∧ Double.eqb d' d = true.
Proof.
  intros H0 H1. destruct d as [s|s| |s m e].
  - exists (S754_zero false). split; [reflexivity|]. by destruct s.
  - destruct s; discriminate.
  - discriminate.
  - exists (S754_finite s m e). split; [reflexivity|apply eqb_finite_refl].
Qed.

(** ** The style through JSON text, and lookups by id *)

Section StyleText.

Import DatabaseManager.

Lemma style_round_trip (s : NoteStyle) :
Double.leb Double.zero (transparency s) = true →
Double.leb (transparency s) Double.one = true →
CInt.in_range (margin s) →
let s' := styleFromVariantMap (Json.toVariantMap (Json.toJson (styleToVariantMap s))) in
Double.eqb (transparency s') (transparency s) = true
∧ backgroundColor s' = backgroundColor s
∧ margin s' = margin s.
Proof.
  intros H0 H1 Hm s'. subst s'.
  destruct (written_transparency _ H0 H1) as (d' & Hd' & Heq).
  unfold styleFromVariantMap, Variant.value, Json.toVariantMap, Json.toJson,
    styleToVariantMap.
  cbn [transparency backgroundColor margin].
  rewrite !lookup_fmap.
  rewrite lookup_insert_ne, lookup_insert_ne, lookup_insert_eq by done.
  rewrite lookup_insert_ne, lookup_insert_eq by done.
  rewrite lookup_insert_eq.
  cbn [fmap option_fmap option_map default Json.fromVariant].
  rewrite Hd', (written_of_int _ Hm).
  cbn. rewrite (round64_of_int _ Hm), (wrap_in_range _ Hm). done.
Qed.

Lemma ascending_lower lo t r : ascending lo t = true → r ∈ t → lo < col_id r.
Proof.
  revert lo. induction t as [|x t IH]; intros lo; [by intros _ ?%elem_of_nil|].
  cbn. intros [Hx Ht]%andb_prop [->|Hr]%elem_of_cons.
  - lia.
  - specialize (IH _ Ht Hr). lia.
Qed.

Lemma filter_has_id_fresh q t :
forallb (λ r, col_id r <=? q) t = true →
filter (λ r, has_id (q + 1) r = true) t = [].
Proof.
  intros H. apply filter_has_id_absent.
  induction t as [|x t IH]; [done|]. cbn in *.
  apply andb_prop in H as [Hx Ht]. rewrite (IH Ht), orb_false_r.
  unfold has_id. lia.
Qed.

Lemma filter_has_id_appended q c t :
forallb (λ r, col_id r <=? q) t = true →
filter (λ r, has_id (q + 1) r = true) (t ++ [mkRow (q + 1) c]) = [mkRow (q + 1) c].
Proof.
  intros H. rewrite filter_app, (filter_has_id_fresh q t H), app_nil_l.
  rewrite filter_cons, filter_nil.
  destruct (decide (has_id (q + 1) (mkRow (q + 1) c) = true)) as [|Hn]; [done|].
  exfalso. apply Hn. unfold has_id. cbn. lia.
Qed.

Lemma int_range_in_range n : int_range n = true → CInt.in_range n.
Proof. unfold int_range, CInt.in_range. lia. Qed.

End StyleText.

(** ** The invariant of the store *)

Section Invariant.

Import DatabaseManager.

Lemma ascending_weaken lo lo' t : lo' <= lo → ascending lo t = true → ascending lo' t = true.
Proof.
  destruct t as [|x t]; [done|]. cbn. intros Hlo [Hx Ht]%andb_prop.
  rewrite Ht, andb_true_r. lia.
Qed.

Lemma ascending_snoc lo t i c :
ascending lo t = true → forallb (λ r, col_id r <=? i - 1) t = true → lo < i →
ascending lo (t ++ [mkRow i c]) = true.
Proof.
  revert lo. induction t as [|x t IH]; intros lo; cbn.
  - intros _ _ Hlo. rewrite andb_true_r. lia.
  - intros [Hx Ht]%andb_prop [Hxi Hti]%andb_prop Hlo.
    rewrite IH by (done || lia). rewrite andb_true_r. lia.
Qed.

Lemma ascending_map lo f t :
(∀ r, col_id (f r) = col_id r) → ascending lo (map f t) = ascending lo t.
Proof.
  intros Hf. revert lo. induction t as [|x t IH]; intros lo; [done|].
  cbn. by rewrite Hf, IH.
Qed.

Lemma forallb_map_ids (P : Z → bool) f (t : list Row) :
(∀ r, col_id (f r) = col_id r) →
forallb (λ r, P (col_id r)) (map f t) = forallb (λ r, P (col_id r)) t.
Proof.
  intros Hf. induction t as [|x t IH]; [done|]. cbn. by rewrite Hf, IH.
Qed.

Lemma ascending_filter lo (P : Row → Prop) `{∀ r, Decision (P r)} t :
ascending lo t = true → ascending lo (filter P t) = true.
Proof.
  revert lo. induction t as [|x t IH]; intros lo; [done|].
  cbn [ascending]. intros [Hx Ht]%andb_prop. rewrite filter_cons.
  destruct (decide (P x)).
  - cbn. by rewrite Hx, IH.
  - apply IH. apply ascending_weaken with (lo := col_id x); [lia|done].
Qed.

Lemma forallb_filter_ids (Q : Row → bool) (P : Row → Prop) `{∀ r, Decision (P r)} t :
forallb Q t = true → forallb Q (filter P t) = true.
Proof.
  induction t as [|x t IH]; [done|]. cbn [forallb].
  intros [Hx Ht]%andb_prop. rewrite filter_cons.
  destruct (decide (P x)); cbn; rewrite ?Hx; auto.
Qed.

Lemma forallb_le_weaken q q' (t : list Row) :
q <= q' → forallb (λ r, col_id r <=? q) t = true →
forallb (λ r, col_id r <=? q') t = true.
Proof.
  intros Hq. induction t as [|x t IH]; [done|]. cbn.
  intros [Hx Ht]%andb_prop. rewrite IH by done. rewrite andb_true_r. lia.
Qed.

(** Every statement that runs keeps the table well formed, an INSERT as
    long as the counter has not reached the largest [int]. *)
Lemma run_stmt_wf s t q :
wf_table t q = true →
(match s with Insert _ => q < CInt.INT_MAX | _ => True end) →
let '(t', q', _) := run_stmt s t q in wf_table t' q' = true.
Proof.
  unfold wf_table. intros [[[Hasc Hle]%andb_prop Hq0]%andb_prop Hmax]%andb_prop Hs.
  destruct s as [|c|i c| | |i|i st]; cbn [run_stmt].
  - by rewrite Hasc, Hle, Hq0, Hmax.
  - rewrite ascending_snoc; [| done | by replace (q + 1 - 1) with q by lia | lia].
    rewrite forallb_app, (forallb_le_weaken q (q + 1) t) by (done || lia).
    cbn. rewrite !andb_true_iff. repeat split; lia.
  - rewrite ascending_map, Hasc.
    2:{ intros r. unfold has_id. destruct (Z.eqb_spec (col_id r) i); cbn; lia. }
    rewrite (forallb_map_ids (λ z, z <=? q)), Hle, Hq0, Hmax; [done|].
    intros r. unfold has_id. destruct (Z.eqb_spec (col_id r) i); cbn; lia.
  - by rewrite Hasc, Hle, Hq0, Hmax.
  - by rewrite Hasc, Hle, Hq0, Hmax.
  - rewrite ascending_filter, forallb_filter_ids, Hq0, Hmax; done.
  - rewrite ascending_map, Hasc.
    2:{ intros r. by destruct (has_id i r). }
    rewrite (forallb_map_ids (λ z, z <=? q)), Hle, Hq0, Hmax; [done|].
    intros r. by destruct (has_id i r).
Qed.

(** A new store that is opened is sound. *)
Example fresh_store_opens_sound :
fst (openDb fresh) = true ∧ sound (snd (openDb fresh)) = true
∧ table (snd (openDb fresh)) = Some [].
Proof. repeat split. Qed.

(** Every call keeps a store sound and raises the counter by at most one. *)
Lemma call_keeps_sound c w :
sound w = true → sqlite_sequence w < CInt.INT_MAX →
sound (call c w) = true
∧ sqlite_sequence w <= sqlite_sequence (call c w) <= sqlite_sequence w + 1.
Proof.
  intros Hs Hq. destruct (sound_inv w Hs) as (t & Ht & _ & _ & Hwf).
  destruct c as [n|n|i| |i|i st]; cbn [call].
  - rewrite (addNote_sound n w Hs t Ht). cbn [snd].
    rewrite sound_after, after_sequence. split; [|lia].
    exact (run_stmt_wf (Insert (bound n)) t _ Hwf Hq).
  - unfold updateNote. destruct (Z.eqb_spec (id n) (-1)) as [E|E].
    + cbn. split; [done|lia].
    + pose proof (updateNote_sound n w Hs t Ht E) as H. unfold updateNote in H.
      destruct (Z.eqb_spec (id n) (-1)); [done|]. rewrite H. cbn [snd].
      rewrite sound_after, after_sequence. split; [|lia].
      exact (run_stmt_wf (Update (id n) (bound n)) t _ Hwf I).
  - rewrite (getNoteById_sound i w Hs t Ht). cbn [snd].
    rewrite sound_after, after_sequence. split; [done|lia].
  - rewrite (getAllNotes_sound w Hs t Ht). cbn [snd].
    rewrite sound_after, after_sequence. split; [done|lia].
  - rewrite (deleteNoteById_sound i w Hs t Ht). cbn [snd].
    rewrite sound_after, after_sequence. split; [|lia].
    exact (run_stmt_wf (Delete i) t _ Hwf I).
  - rewrite (setNoteStatus_sound i st w Hs t Ht). cbn [snd].
    rewrite sound_after, after_sequence. split; [|lia].
    exact (run_stmt_wf (UpdateStatus i st) t _ Hwf I).
Qed.

(** Soundness is an invariant of the store: it holds after any history of
    calls that does not exhaust the ids an [int] can hold. *)
Lemma replay_keeps_sound calls : ∀ w,
sound w = true → sqlite_sequence w + Z.of_nat (length calls) <= CInt.INT_MAX →
sound (replay calls w) = true.
Proof.
  induction calls as [|c calls IH]; intros w Hs Hq; [done|].
  cbn [length] in Hq. rewrite Nat2Z.inj_succ in Hq.
  destruct (call_keeps_sound c w Hs ltac:(lia)) as [Hs' Hq'].
  cbn [replay fold_left]. apply IH; [done|lia].
Qed.

End Invariant.

(** ** Create, then read *)

Section RoundTrip.

Import DatabaseManager.

Lemma valid_note_inv n :
valid_note n = true →
valid_status (status n) = true
∧ CInt.in_range (px (position n)) ∧ CInt.in_range (py (position n))
∧ CInt.in_range (width (size n)) ∧ CInt.in_range (height (size n))
∧ Double.leb Double.zero (transparency (style n)) = true
∧ Double.leb (transparency (style n)) Double.one = true
∧ 0 <= margin (style n) ∧ CInt.in_range (margin (style n)).
Proof.
  unfold valid_note. rewrite !andb_true_iff.
  intros [[[[[[[[? ?] ?] ?] ?] ?] ?] ?] ?].
  repeat split; try done; try (by apply int_range_in_range); lia.
Qed.

Lemma fetch_bound i n :
CInt.in_range i → valid_note n = true →
id (fetch (mkRow i (bound n))) = i ∧ same_fields (fetch (mkRow i (bound n))) n.
Proof.
  intros Hi (Hst & Hx & Hy & Hw & Hh & H0 & H1 & _ & Hm)%valid_note_inv.
  destruct (style_round_trip (style n) H0 H1 Hm) as (Ht & Hc & Hmg).
  unfold fetch, bound, same_fields. cbn [id status filepath position size style cols
    col_id col_status col_filepath col_position_x col_position_y col_size_width
    col_size_height col_style].
  rewrite !wrap_in_range by done. repeat split; try done.
  - destruct (String.eqb_spec (filepath n) ""); done.
  - by destruct (position n).
  - by destruct (size n).
Qed.

(** C7.  On a store in working order, a valid note that is created and
    then read under the returned id comes back with every field equal to
    the input: status, file path, position, size, and the three components
    of the style after their way through the JSON text; the id read is
    the one [addNote] returned. *)
Theorem create_then_read_round_trip (n : Note) (w : World) :
sound w = true → sqlite_sequence w < CInt.INT_MAX → valid_note n = true →
let created := addNote n w in
let read := getNoteById (fst created) (snd created) in
fst created = sqlite_sequence w + 1
∧ fst created ≠ -1
∧ sound (snd created) = true
∧ id (fst read) = fst created
∧ same_fields (fst read) n.
Proof.
  intros Hs Hq Hv created read.
  destruct (sound_inv w Hs) as (t & Ht & _ & _ & Hwf).
  pose proof (run_stmt_wf (Insert (bound n)) t _ Hwf Hq) as Hwf'.
  cbn [run_stmt] in Hwf'.
  unfold wf_table in Hwf.
  apply andb_prop in Hwf as [[[Hasc Hle]%andb_prop Hq0]%andb_prop Hmax].
  set (q := sqlite_sequence w) in *.
  unfold CInt.INT_MAX in Hq.
  assert (Hr : CInt.in_range (q + 1)).
  { unfold CInt.in_range, CInt.INT_MIN, CInt.INT_MAX. lia. }
  assert (Hc : created
               = (q + 1, after [Insert (bound n)] (t ++ [mkRow (q + 1) (bound n)])
                           (q + 1) w)).
  { subst created. rewrite (addNote_sound n w Hs t Ht). fold q.
    by rewrite (wrap_in_range _ Hr). }
  assert (Hs' : sound (snd created) = true).
  { rewrite Hc. cbn [snd]. by rewrite sound_after. }
  assert (Hread : fst read = fetch (mkRow (q + 1) (bound n))).
  { subst read. rewrite (getNoteById_sound _ _ Hs' _ (f_equal table (f_equal snd Hc))).
    rewrite Hc. cbn [fst snd]. by rewrite filter_has_id_appended. }
  destruct (fetch_bound (q + 1) n Hr Hv) as [Hid Hsame].
  rewrite Hread. rewrite Hc in Hs' |- *. cbn [fst snd] in *.
  split; [done|]. split; [lia|]. split; [exact Hs'|]. split; [exact Hid|exact Hsame].
Qed.

(** A hidden note with a file, a colour, 40% transparency and margin 25,
    created in the store that holds record 1. *)
Lemma create_then_read_round_trip_witness :
let n := mkNote (-1) "hidden" "/home/user/notes/todo.md" (mkQPoint 300 100)
           (mkQSize 320 240)
           (mkNoteStyle (Double.div (Double.of_int 40) Double.hundred) "#336699" 25) in
let created := addNote n store_one in
fst created = 2 ∧ same_fields (fst (getNoteById 2 (snd created))) n.
Proof.
  intros n created.
  destruct (create_then_read_round_trip n store_one eq_refl eq_refl eq_refl)
    as (H1 & _ & _ & _ & H2).
  split; [exact H1|exact H2].
Defined.

(** The first walk-through of the specification: the default note created
    in a new store gets id 1 and reads back as status "shown" at (50,50)
    with size (200,150). *)
Example create_default_in_fresh_store :
let created := addNote defaultNote fresh in
fst created = 1
∧ fst (getNoteById 1 (snd created)) = set_id 1 defaultNote.
Proof. split; reflexivity. Qed.

End RoundTrip.

(** ** The listing and the adoption of the first pending record *)

Section Adoption.

Import DatabaseManager DesktopNotesApplet.

Lemma wf_table_ids t q r :
wf_table t q = true → r ∈ t → 0 < col_id r <= q ∧ CInt.in_range (col_id r).
Proof.
  unfold wf_table.
  intros [[[Hasc Hle]%andb_prop Hq0]%andb_prop Hmax]%andb_prop Hr.
  pose proof (ascending_lower 0 t r Hasc Hr) as H0.
  rewrite forallb_forall in Hle. apply list_elem_of_In, Hle in Hr.
  unfold CInt.in_range, CInt.INT_MIN, CInt.INT_MAX in *. lia.
Qed.

Lemma fetch_id t q r :
wf_table t q = true → r ∈ t → id (fetch r) = col_id r.
Proof.
  intros Hwf Hr. destruct (wf_table_ids t q r Hwf Hr) as [_ Hin].
  unfold fetch. cbn. by apply wrap_in_range.
Qed.


Lemma ascending_sorted lo t :
ascending lo t = true → StronglySorted Z.lt (map col_id t).
Proof.
  revert lo. induction t as [|x t IH]; intros lo; cbn; [constructor|].
  intros [Hx Ht]%andb_prop. constructor; [by apply (IH (col_id x))|].
  apply Forall_forall. intros i Hi%list_elem_of_In.
  apply in_map_iff in Hi as (r & <- & Hr).
  apply (ascending_lower _ t r Ht). by apply list_elem_of_In.
Qed.


Lemma isValid_pos n : 0 < id n → isValid n = true.
Proof. unfold isValid. intros H. destruct (Z.eqb_spec (id n) (-1)); [lia|done]. Qed.

Lemma first_pending_row t q n :
wf_table t q = true → first_pending (map fetch t) = Some n →
∃ r, r ∈ t ∧ n = fetch r ∧ id n = col_id r ∧ 0 < id n <= q
     ∧ status n = "pending_placement".
Proof.
  intros Hwf Hfind. unfold first_pending in Hfind.
  apply find_some in Hfind as [Hin Hst].
  apply in_map_iff in Hin as (r & <- & Hr%list_elem_of_In).
  exists r. rewrite (fetch_id t q r Hwf Hr).
  destruct (wf_table_ids t q r Hwf Hr) as [Hpos _].
  repeat split; try done; try lia. by apply String.eqb_eq.
Qed.

Lemma existsb_has_id i (t : list Row) r :
r ∈ t → col_id r = i → existsb (has_id i) t = true.
Proof.
  intros Hr Hi. apply existsb_exists. exists r.
  split; [by apply list_elem_of_In|]. unfold has_id. lia.
Qed.

Lemma filter_updated i c t :
existsb (has_id i) t = true →
∃ rest, filter (λ r, has_id i r = true)
          (map (λ r, if has_id i r then mkRow i c else r) t)
        = mkRow i c :: rest.
Proof.
  induction t as [|x t IH]; [done|]. cbn [existsb map].
  rewrite filter_cons. destruct (has_id i x) eqn:E.
  - intros _. destruct (decide (has_id i (mkRow i c) = true)) as [|Hn]; [eauto|].
    exfalso. apply Hn. unfold has_id. cbn. lia.
  - cbn [orb]. intros H. destruct (decide (has_id i x = true)); [congruence|]. auto.
Qed.

Lemma initializeNewNote_adopts a w t n :
sound w = true → table w = Some t → first_pending (map fetch t) = Some n →
initializeNewNote a w
= (writeConfig
     (setPreferredGeometry (Rect.make (position n) (size n))
        (set_m_note (set_status "shown" n) a)),
   after [SelectAll; SelectAll; Update (id n) (bound (set_status "shown" n))]
     (adopt_in n t) (sqlite_sequence w) w).
Proof.
  intros Hs Ht Hfind.
  destruct (first_pending_row t _ n (sound_wf w t Hs Ht) Hfind)
    as (r & Hr & _ & Hid & Hpos & _).
  unfold initializeNewNote, scan_pending.
  erewrite bind_run; [|erewrite bind_run by (by apply getAllNotes_sound); reflexivity].
  rewrite Hfind. unfold settle. cbn [m_note set_m_note].
  erewrite bind_run.
  2:{ apply updateNote_sound with (t := t).
      - by apply sound_after_same.
      - reflexivity.
      - cbn. lia. }
  rewrite after_after. unfold remember.
  cbn [m_note setPreferredGeometry set_m_note set_status id position size].
  rewrite isValid_pos by (cbn; lia). reflexivity.
Qed.

Lemma initializeNewNote_creates a w t :
sound w = true → table w = Some t → first_pending (map fetch t) = None →
sqlite_sequence w < CInt.INT_MAX →
let q := sqlite_sequence w in
initializeNewNote a w
= (writeConfig (set_m_note (set_id (q + 1) defaultNote) a),
   after [SelectAll; SelectAll; Insert (bound defaultNote)]
     (t ++ [mkRow (q + 1) (bound defaultNote)]) (q + 1) w).
Proof.
  intros Hs Ht Hfind Hq q.
  pose proof (sound_wf w t Hs Ht) as Hwf. unfold wf_table in Hwf.
  apply andb_prop in Hwf as [[_ Hq0]%andb_prop _].
  unfold initializeNewNote, scan_pending.
  erewrite bind_run; [|erewrite bind_run by (by apply getAllNotes_sound); reflexivity].
  rewrite Hfind. unfold settle. cbn [m_note set_m_note].
  erewrite bind_run.
  2:{ apply addNote_sound with (t := t); [by apply sound_after_same|reflexivity]. }
  rewrite after_after, after_sequence. fold q.
  unfold CInt.INT_MAX in Hq.
  rewrite wrap_in_range by (unfold CInt.in_range, CInt.INT_MIN, CInt.INT_MAX; lia).
  destruct (Z.eqb_spec (q + 1) (-1)); [lia|]. cbn [negb]. unfold remember.
  cbn [m_note set_m_note].
  rewrite isValid_pos by (cbn; lia). reflexivity.
Qed.

Lemma adopt_in_wf n t q : wf_table t q = true → wf_table (adopt_in n t) q = true.
Proof.
  intros Hwf.
  pose proof (run_stmt_wf (Update (id n) (bound (set_status "shown" n))) t q Hwf I) as H.
  exact H.
Qed.

(** The whole start of an instance that remembers nothing, when a record
    awaits placement: the instance ends up showing the first such record
    of the listing, as stored after the update. *)
Lemma start_adopts g w t n :
sound w = true → table w = Some t → first_pending (map fetch t) = Some n →
start None g w
= (set_m_note (fetch (adopted_row n))
     (writeConfig
        (setPreferredGeometry (Rect.make (position n) (size n))
           (set_m_note (set_status "shown" n) (readConfig (constructed None g))))),
   after [SelectAll; SelectAll; Update (id n) (bound (set_status "shown" n));
          SelectById (id n)]
     (adopt_in n t) (sqlite_sequence w) w).
Proof.
  intros Hs Ht Hfind.
  pose proof (sound_wf w t Hs Ht) as Hwf.
  destruct (first_pending_row t _ n Hwf Hfind) as (r & Hr & _ & Hid & Hpos & _).
  unfold start, init.
  set (a0 := readConfig (constructed None g)).
  change (isValid (m_note a0)) with false. cbn [negb].
  erewrite bind_run by (by apply openDb_sound).
  erewrite bind_run.
  2:{ apply initializeNewNote_adopts with (t := t);
        [by apply sound_after_same|reflexivity|done]. }
  rewrite after_after, after_sequence.
  set (a1 := writeConfig _).
  assert (Hs1 : ∀ ss, sound (after ss (adopt_in n t) (sqlite_sequence w) w) = true).
  { intros ss. rewrite sound_after. by apply adopt_in_wf. }
  erewrite bind_run by (by apply openDb_sound).
  rewrite after_after, after_sequence.
  assert (Hload : loadNoteData a1
                    (after (([] ++ [SelectAll; SelectAll;
                             Update (id n) (bound (set_status "shown" n))]) ++ [])
                       (adopt_in n t) (sqlite_sequence w) w)
                  = (set_m_note (fetch (adopted_row n)) a1,
                     after [SelectAll; SelectAll;
                            Update (id n) (bound (set_status "shown" n));
                            SelectById (id n)]
                       (adopt_in n t) (sqlite_sequence w) w)).
  { unfold loadNoteData.
    change (m_note a1) with (set_status "shown" n).
    rewrite isValid_pos by (cbn; lia). cbn [negb].
    erewrite bind_run by (by apply getNoteById_sound).
    destruct (filter_updated (id n) (bound (set_status "shown" n)) t
                (existsb_has_id _ t r Hr (eq_sym Hid))) as [rest Hrest].
    unfold adopt_in, adopted_row. cbn [id set_status]. rewrite Hrest.
    rewrite after_after, after_sequence.
    rewrite isValid_pos; [reflexivity|].
    cbn. destruct (wf_table_ids t _ r Hwf Hr) as [_ Hin].
    rewrite wrap_in_range by (by rewrite Hid). lia. }
  erewrite bind_run by exact Hload.
  reflexivity.
Qed.




(** ** A failed claim *)

Lemma scan_pending_second_try (w : World) (t : list Row) (f1 : bool) (fs : list bool) :
conn_open w = true → table w = Some t → faults w = f1 :: false :: fs →
scan_pending w
= (first_pending (map fetch t),
   mkWorld true (medium_ok w) (Some t) (sqlite_sequence w) fs
     (trace w ++ (if f1 then [] else [SelectAll]) ++ [SelectAll])).
Proof.
  intros Hopen Ht Hf. destruct w as [c m tb q f tr]. cbn in Hopen, Ht, Hf. subst c tb f.
  destruct f1; cbn; unfold ran, set_faults; cbn; rewrite <- ?app_assoc; reflexivity.
Qed.

Lemma updateNote_fails (n : Note) (w : World) (fs : list bool) :
conn_open w = true → faults w = true :: fs → id n ≠ -1 →
updateNote n w = (false, set_faults fs w).
Proof.
  intros Hopen Hf Hid. unfold updateNote.
  destruct (Z.eqb_spec (id n) (-1)); [done|].
  destruct w as [c m tb q f tr]. cbn in Hopen, Hf. subst c f. reflexivity.
Qed.

Lemma addNote_open (n : Note) (w : World) (t : list Row) :
conn_open w = true → table w = Some t →
addNote n w
= match faults w with
  | true :: fs => (-1, set_faults fs w)
  | fs => (CInt.wrap (sqlite_sequence w + 1),
           ran (Insert (bound n)) (t ++ [mkRow (sqlite_sequence w + 1) (bound n)])
             (sqlite_sequence w + 1) (set_faults (tail fs) w))
  end.
Proof.
  intros Hopen Ht. destruct w as [c m tb q f tr]. cbn in Hopen, Ht. subst c tb.
  destruct f as [|[] f]; reflexivity.
Qed.

(** C3, as the code has it.  When the listing found a record awaiting
    placement and the update that claims it fails, [initializeNewNote]
    runs exactly one more statement, the INSERT of a default note: it looks
    at no other record.  The table afterwards is the table before, with
    the new default row at its end if the INSERT ran; the instance shows
    the default note, under the new id if the INSERT ran.  The outcomes
    of the coming statements are: the listing run by the constructor of
    the query (either way, [f1]), the listing run by [exec()] (succeeds),
    the update (fails), then [rest]. *)
Theorem failed_claim_falls_back_at_once (a : Applet) (w : World) (t : list Row)
  (n : Note) (f1 : bool) (rest : list bool) :
conn_open w = true → table w = Some t →
faults w = f1 :: false :: true :: rest →
first_pending (map fetch t) = Some n → id n ≠ -1 →
let r := initializeNewNote a w in
let q := sqlite_sequence w in
let inserted := match rest with true :: _ => false | _ => true end in
table (snd r) = Some (if inserted then t ++ [mkRow (q + 1) (bound defaultNote)] else t)
∧ m_note (fst r)
  = (if inserted then set_id (CInt.wrap (q + 1)) defaultNote else defaultNote)
∧ faults (snd r) = tail rest
∧ filter is_write (trace (snd r))
  = filter is_write (trace w) ++ (if inserted then [Insert (bound defaultNote)] else []).
Proof.
  intros Hopen Ht Hf Hfind Hid r q inserted. subst r q inserted.
  unfold initializeNewNote.
  erewrite bind_run by (by apply scan_pending_second_try).
  rewrite Hfind. unfold settle. cbn [m_note set_m_note].
  erewrite bind_run by (by apply updateNote_fails).
  cbv beta iota zeta. cbn [m_note set_m_note].
  assert (Hsel : filter is_write (trace w ++ (if f1 then [] else [SelectAll]) ++ [SelectAll])
                 = filter is_write (trace w)).
  { rewrite !filter_app. destruct f1; cbn; by rewrite ?app_nil_r. }
  destruct rest as [|[] rest'];
    (erewrite bind_run by (by rewrite (addNote_open _ _ t) by done));
    cbn [set_faults faults conn_open medium_ok table sqlite_sequence trace tail
         fst snd ran].
  - destruct (Z.eqb_spec (CInt.wrap (sqlite_sequence w + 1)) (-1)) as [E|E];
      cbn [negb]; unfold remember, ret; cbn; rewrite filter_app, Hsel;
      (split; [done|]; split; [|done]).
    + by rewrite E.
    + by destruct (isValid _).
  - unfold remember, ret. cbn. rewrite Hsel, app_nil_r. repeat split.
  - destruct (Z.eqb_spec (CInt.wrap (sqlite_sequence w + 1)) (-1)) as [E|E];
      cbn [negb]; unfold remember, ret; cbn; rewrite filter_app, Hsel;
      (split; [done|]; split; [|done]).
    + by rewrite E.
    + by destruct (isValid _).
Qed.

(** Records 3, 7 and 9 await placement and the update of record 3 fails:
    the instance gets the new record 10. *)
Lemma failed_claim_falls_back_at_once_witness :
let w := set_faults [false; false; true; false] store_pending_3_7_9 in
let r := initializeNewNote (readConfig (constructed None (mkQRectF 0 0 200 150))) w in
m_note (fst r) = set_id 10 defaultNote ∧ faults (snd r) = [].
Proof.
  intros w r.
  assert (Ho : conn_open w = true) by (vm_compute; reflexivity).
  assert (Ht : table w = Some (default [] (table w))) by (vm_compute; reflexivity).
  assert (Hf : faults w = [false; false; true; false]) by reflexivity.
  assert (Hp : first_pending (map fetch (default [] (table w)))
               = Some (set_id 3 (pending defaultNote)))
    by (vm_compute; reflexivity).
  destruct (failed_claim_falls_back_at_once
              (readConfig (constructed None (mkQRectF 0 0 200 150)))
              w _ _ false [false] Ho Ht Hf Hp) as (_ & Hn & Hfs & _).
  - discriminate.
  - split; [exact Hn|exact Hfs].
Defined.

(** C3 fails as stated.  Records 3, 7 and 9 await placement; the listing
    succeeds, the update that claims record 3 fails, the statement after
    it succeeds.  The instance creates record 10 at once: records 7 and 9
    are still awaiting placement, no statement was spent on them, and the
    only write is the INSERT of the new default note. *)
Lemma failed_claim_counterexample :
let w := set_faults [false; false; true; false] store_pending_3_7_9 in
let r := initializeNewNote (readConfig (constructed None (mkQRectF 0 0 200 150))) w in
stored_status 7 w = Some "pending_placement"
∧ id (m_note (fst r)) = 10
∧ present 10 w = false ∧ present 10 (snd r) = true
∧ stored_status 3 (snd r) = Some "pending_placement"
∧ stored_status 7 (snd r) = Some "pending_placement"
∧ stored_status 9 (snd r) = Some "pending_placement"
∧ faults (snd r) = []
∧ length (filter is_write (trace (snd r))) = S (length (filter is_write (trace w)))
∧ last (filter is_write (trace (snd r))) = Some (Insert (bound defaultNote)).
Proof.
  vm_compute. repeat split.
Qed.

End Adoption.

(** ** Several instances, one after the other *)

Section Serial.

Import DatabaseManager DesktopNotesApplet.




(** *** The record that was claimed stays claimed *)









(** *** The serial schedule *)






End Serial.

(** ** The walk-throughs of the specification *)

Section WalkThroughs.

Import DatabaseManager DesktopNotesApplet.

(** An instance without a remembered id, a store with the single record 5
    awaiting placement at (300,100): the instance ends up with id 5 at
    that position, and the record is stored as "shown". *)
Example adopt_the_only_pending_record :
let r := start None (mkQRectF 0 0 200 150) store_pending_5 in
id (m_note (fst r)) = 5 ∧ config_noteId (fst r) = Some 5
∧ position (m_note (fst r)) = mkQPoint 300 100
∧ geometry (fst r) = mkQRectF 300 100 200 150
∧ stored_status 5 (snd r) = Some "shown".
Proof. vm_compute. repeat split. Qed.

(** Two instances one after the other on that store: the first owns
    record 5, the second finds nothing pending and creates record 6. *)
Example second_instance_creates_a_record :
let g := mkQRectF 0 0 200 150 in
let s := run (serial 2) (mkSystem store_pending_5 [newcomer g; newcomer g]) in
map (λ i, id (m_note (applet i))) (instances s) = [5; 6]
∧ stored_status 6 (file s) = Some "shown".
Proof. vm_compute. repeat split. Qed.

(** [setNoteStatus 3 "hidden"], then the listing holds record 3 as hidden. *)
Example hidden_record_is_listed :
let w := snd (setNoteStatus 3 "hidden" store_pending_3_7_9) in
map (λ n, (id n, status n)) (filter (λ n, id n = 3) (fst (getAllNotes w)))
= [(3, "hidden")].
Proof. vm_compute. reflexivity. Qed.

(** Deleting an id that is not there succeeds, and the id still reads as
    the default note. *)
Example delete_is_idempotent :
let r := deleteNoteById 42 store_pending_5 in
fst r = true ∧ table (snd r) = table store_pending_5
∧ fst (getNoteById 42 (snd r)) = defaultNote.
Proof. vm_compute. repeat split. Qed.

End WalkThroughs.

(* ===================================================================== *)
(** * Further properties of the code *)
(* ===================================================================== *)

(** ** The store when it cannot be opened *)

Section Unavailable.

Import DatabaseManager.

(** X1.  While the data directory or the file cannot be opened, every
    operation of the store manager returns its failure value ([-1],
    [false], the default note with id -1, the empty list), [openDb]
    answers [false], and nothing at all is changed. *)
Theorem unavailable_store_fails_closed (c : Call) (w : World) :
unavailable w = true →
call_failed c w = true ∧ call c w = w ∧ openDb w = (false, w).
Proof.
  unfold unavailable. destruct w as [[] [] t q f tr]; cbn; try done. intros _.
  destruct c; cbn; try done.
  unfold updateNote. destruct (id n =? -1); cbn; done.
Qed.

Lemma unavailable_store_fails_closed_witness :
call_failed (CallAdd defaultNote) offline = true
∧ call (CallAdd defaultNote) offline = offline.
Proof.
  destruct (unavailable_store_fails_closed (CallAdd defaultNote) offline eq_refl)
    as (H1 & H2 & _).
  split; [exact H1|exact H2].
Defined.

Lemma call_closed_table w c :
conn_open w = true → table w = None →
conn_open (call c w) = true ∧ table (call c w) = None ∧ call_failed c w = true.
Proof.
  destruct w as [[] m [t|] q f tr]; cbn; try done. intros _ _.
  destruct c; cbn; unfold updateNote; try destruct (id n =? -1); cbn;
    destruct f as [|[] [|[] f]]; cbn; done.
Qed.

Lemma replay_closed_table calls : ∀ w,
conn_open w = true → table w = None →
conn_open (replay calls w) = true ∧ table (replay calls w) = None.
Proof.
  induction calls as [|c calls IH]; intros w Ho Ht; [done|].
  destruct (call_closed_table w c Ho Ht) as (Ho' & Ht' & _).
  exact (IH (call c w) Ho' Ht').
Qed.

(** X2.  When the file opens but the CREATE TABLE statement fails,
    [openDb] answers [false] and leaves the connection open.  From then
    on [openDb] answers [true] without creating the table: whatever calls
    follow, the table stays missing and every operation returns its
    failure value, also after the fault is gone. *)
Theorem failed_table_creation_is_never_retried (w : World) (fs : list bool)
  (calls : list Call) (c : Call) :
conn_open w = false → medium_ok w = true → table w = None →
faults w = true :: fs →
let w1 := snd (openDb w) in
fst (openDb w) = false
∧ fst (openDb (replay calls w1)) = true
∧ table (replay calls w1) = None
∧ call_failed c (replay calls w1) = true.
Proof.
  intros Ho Hm Ht Hf w1.
  assert (H1 : conn_open w1 = true ∧ table w1 = None ∧ fst (openDb w) = false).
  { subst w1. destruct w as [[] [] [t|] q f tr]; cbn in *; try done.
    subst f. done. }
  destruct H1 as (Ho1 & Ht1 & Hr).
  destruct (replay_closed_table calls w1 Ho1 Ht1) as (Ho2 & Ht2).
  destruct (call_closed_table _ c Ho2 Ht2) as (_ & _ & Hc).
  repeat split; try done.
  destruct (replay calls w1) as [[] ? ? ? ? ?]; cbn in *; done.
Qed.

Lemma failed_table_creation_is_never_retried_witness :
let w := set_faults [true] fresh in
fst (openDb w) = false
∧ call_failed (CallAdd defaultNote) (replay [CallAll] (snd (openDb w))) = true.
Proof.
  intros w.
  destruct (failed_table_creation_is_never_retried w [] [CallAll] (CallAdd defaultNote)
              eq_refl eq_refl eq_refl eq_refl) as (H1 & _ & _ & H2).
  split; [exact H1|exact H2].
Defined.

End Unavailable.

(** ** Failing statements, reads, and opening twice *)

Section StoreFaults.

Import DatabaseManager.

(** X3.  On an open connection, an operation whose statement fails
    leaves the table and the counter of ids as they were; each operation
    but the listing then returns its failure value and records no
    statement. *)
Theorem failed_statement_changes_nothing (c : Call) (w : World) (fs : list bool) :
conn_open w = true → faults w = true :: fs →
table (call c w) = table w
∧ sqlite_sequence (call c w) = sqlite_sequence w
∧ (c ≠ CallAll → call_failed c w = true ∧ trace (call c w) = trace w).
Proof.
  destruct w as [[] m t q f tr]; cbn; try done. intros _ ->.
  destruct c; cbn; unfold updateNote; try destruct (id n =? -1); cbn; try done.
  destruct fs as [|[] fs], t as [t|]; cbn; done.
Qed.

Lemma failed_statement_changes_nothing_witness :
let w := set_faults [true] store_one in
table (call (CallDelete 1) w) = table w ∧ call_failed (CallDelete 1) w = true.
Proof.
  intros w.
  destruct (failed_statement_changes_nothing (CallDelete 1) w [] eq_refl eq_refl)
    as (H1 & _ & H2).
  split; [exact H1|]. apply H2. discriminate.
Defined.

(** X4.  In every state of the world, faults included, [getNoteById]
    and [getAllNotes] leave the rows and the counter of ids as they were
    and run no statement that writes. *)
Theorem reads_never_write (w : World) :
(∀ i, let r := getNoteById i w in
      default [] (table (snd r)) = default [] (table w)
      ∧ sqlite_sequence (snd r) = sqlite_sequence w
      ∧ filter is_write (trace (snd r)) = filter is_write (trace w))
∧ (let r := getAllNotes w in
   default [] (table (snd r)) = default [] (table w)
   ∧ sqlite_sequence (snd r) = sqlite_sequence w
   ∧ filter is_write (trace (snd r)) = filter is_write (trace w)).
Proof.
  destruct w as [c m t q f tr]. split; [intros i|];
    destruct c, m, t as [t|], f as [|[] [|[] [|[] f]]]; cbn;
    rewrite <- ?app_assoc, ?filter_app, ?app_nil_r;
    repeat split; try done;
    try (destruct (filter (λ r, has_id i r = true) t); cbn;
         rewrite <- ?app_assoc, ?filter_app, ?app_nil_r; done).
Qed.

(** X5.  A successful [openDb] leaves the connection open, has created
    the table if the connection was closed, keeps the rows and the
    counter, and a second [openDb] changes nothing. *)
Theorem openDb_opens_once (w : World) :
fst (openDb w) = true →
let w' := snd (openDb w) in
conn_open w' = true
∧ (conn_open w = false → ∃ t, table w' = Some t)
∧ default [] (table w') = default [] (table w)
∧ sqlite_sequence w' = sqlite_sequence w
∧ openDb w' = (true, w').
Proof.
  destruct w as [c m t q f tr].
  destruct c, m, t as [t|], f as [|[] f]; cbn; try done; eauto 10.
Qed.

Lemma openDb_opens_once_witness :
conn_open (snd (openDb fresh)) = true
∧ openDb (snd (openDb fresh)) = (true, snd (openDb fresh)).
Proof.
  destruct (openDb_opens_once fresh eq_refl) as (H1 & _ & _ & _ & H2).
  split; [exact H1|exact H2].
Defined.

End StoreFaults.

(** ** Ids along a history of calls *)

Section StoreHistory.

Import DatabaseManager.

Lemma replay_counter calls : ∀ w,
sound w = true → sqlite_sequence w + Z.of_nat (length calls) <= CInt.INT_MAX →
sound (replay calls w) = true
∧ sqlite_sequence w <= sqlite_sequence (replay calls w)
  <= sqlite_sequence w + Z.of_nat (length calls).
Proof.
  induction calls as [|c calls IH]; intros w Hs Hq; cbn [replay fold_left length] in *.
  - split; [done|lia].
  - destruct (call_keeps_sound c w Hs) as (Hs' & Hq'); [lia|].
    destruct (IH (call c w) Hs') as (Hs2 & Hq2); [lia|].
    unfold replay in *. split; [done|lia].
Qed.

(** X6.  Ids are never handed out twice: after any history of calls on
    a store in working order, the id that [addNote] returns for a note
    whose status is not empty is not -1 and is larger than the counter
    before the history, hence larger than the id of every record that
    existed then, deleted since or not.  (A note with an empty status
    is left out: the empty text also stands for the null [QString],
    which the NOT NULL column refuses.) *)
Theorem new_id_exceeds_all_earlier (calls : list Call) (n : Note) (w : World)
  (t : list Row) :
sound w = true → table w = Some t →
sqlite_sequence w + Z.of_nat (length calls) < CInt.INT_MAX →
status n ≠ "" →
let r := addNote n (replay calls w) in
fst r ≠ -1
∧ sqlite_sequence w < fst r
∧ ∀ row, row ∈ t → col_id row < fst r.
Proof.
  intros Hs Ht Hq _ r.
  destruct (replay_counter calls w Hs) as (Hs' & Hq'); [lia|].
  destruct (sound_inv _ Hs') as (t' & Ht' & _ & _ & Hwf').
  subst r. rewrite (addNote_sound n _ Hs' t' Ht'). cbn [fst].
  assert (H0 : 0 <= sqlite_sequence w).
  { pose proof (sound_wf w t Hs Ht) as Hwf. unfold wf_table in Hwf.
    repeat (apply andb_prop in Hwf as [Hwf ?]). lia. }
  rewrite wrap_in_range by (unfold CInt.in_range, CInt.INT_MIN, CInt.INT_MAX in *; lia).
  split; [lia|]. split; [lia|].
  intros row Hrow.
  destruct (wf_table_ids t _ row (sound_wf w t Hs Ht) Hrow) as [? _]. lia.
Qed.

Lemma new_id_exceeds_all_earlier_witness :
let r := addNote defaultNote (replay [CallDelete 1] store_one) in
fst r ≠ -1 ∧ 1 < fst r.
Proof.
  destruct (new_id_exceeds_all_earlier [CallDelete 1] defaultNote store_one
              [mkRow 1 (bound defaultNote)]) as (H1 & H2 & _).
  - reflexivity.
  - reflexivity.
  - vm_compute. reflexivity.
  - discriminate.
  - split; [exact H1|exact H2].
Defined.

Lemma wf_table_nodup t q : wf_table t q = true → NoDup (map col_id t).
Proof.
  intros Hwf. unfold wf_table in Hwf. repeat (apply andb_prop in Hwf as [Hwf ?]).
  pose proof (ascending_sorted 0 t Hwf) as Hs.
  induction Hs as [|x l Hs IH Hall]; constructor; [|done].
  intros Hin. rewrite Forall_forall in Hall. specialize (Hall x Hin). lia.
Qed.

(** X7.  Any history of calls keeps the table well formed: the ids of
    the rows are pairwise distinct, strictly ascending in rowid order,
    positive and at most the counter, which never decreases. *)
Theorem history_keeps_ids_unique (calls : list Call) (w : World) :
sound w = true → sqlite_sequence w + Z.of_nat (length calls) <= CInt.INT_MAX →
∃ t', table (replay calls w) = Some t'
  ∧ NoDup (map col_id t')
  ∧ StronglySorted Z.lt (map col_id t')
  ∧ (∀ row, row ∈ t' → 0 < col_id row <= sqlite_sequence (replay calls w))
  ∧ sqlite_sequence w <= sqlite_sequence (replay calls w).
Proof.
  intros Hs Hq. destruct (replay_counter calls w Hs Hq) as (Hs' & Hq').
  destruct (sound_inv _ Hs') as (t' & Ht' & _ & _ & Hwf').
  exists t'. split; [done|]. split; [by eapply wf_table_nodup|].
  split.
  { unfold wf_table in Hwf'. repeat (apply andb_prop in Hwf' as [Hwf' ?]).
    by eapply ascending_sorted. }
  split; [|lia].
  intros row Hrow. by destruct (wf_table_ids t' _ row Hwf' Hrow).
Qed.

Lemma history_keeps_ids_unique_witness :
∃ t', table (replay [CallAdd defaultNote; CallDelete 1; CallAdd defaultNote] store_one)
      = Some t' ∧ NoDup (map col_id t').
Proof.
  destruct (history_keeps_ids_unique
              [CallAdd defaultNote; CallDelete 1; CallAdd defaultNote] store_one)
    as (t' & H1 & H2 & _).
  - reflexivity.
  - vm_compute. discriminate.
  - exists t'. split; [exact H1|exact H2].
Defined.

End StoreHistory.

(** ** Single records: delete, update, add, status *)

Section StoreRecords.

Import DatabaseManager.

Lemma filter_id_after_delete j i (t : list Row) :
j ≠ i →
filter (λ r, has_id j r = true) (filter (λ r, has_id i r = false) t)
= filter (λ r, has_id j r = true) t.
Proof.
  intros Hji. induction t as [|r t IH]; [done|].
  rewrite !filter_cons. unfold has_id in *.
  destruct (Z.eqb_spec (col_id r) i), (Z.eqb_spec (col_id r) j);
    repeat case_decide; try done; try lia; rewrite ?filter_cons;
    repeat case_decide; try done; try congruence.
  all: unfold has_id in *;
    try (destruct (Z.eqb_spec (col_id r) j); try done; try lia);
    try (destruct (Z.eqb_spec (col_id r) i); try done; try lia).
Qed.

Lemma existsb_deleted i (t : list Row) :
existsb (has_id i) (filter (λ r, has_id i r = false) t) = false.
Proof.
  induction t as [|r t IH]; [done|]. rewrite filter_cons.
  case_decide as E; [|done]. cbn. by rewrite E, IH.
Qed.

Lemma filter_filter_same i (t : list Row) :
filter (λ r, has_id i r = false) (filter (λ r, has_id i r = false) t)
= filter (λ r, has_id i r = false) t.
Proof.
  induction t as [|r t IH]; [done|]. rewrite filter_cons.
  case_decide as E; [|done]. rewrite filter_cons. case_decide; [|done].
  by rewrite IH.
Qed.

Lemma wf_table_filter (P : Row → Prop) `{∀ r, Decision (P r)} t q :
wf_table t q = true → wf_table (filter P t) q = true.
Proof.
  unfold wf_table. intros Hwf. repeat (apply andb_prop in Hwf as [Hwf ?]).
  rewrite (ascending_filter 0 P t Hwf).
  rewrite (forallb_filter_ids (λ r, col_id r <=? q) P t) by done.
  cbn. by apply andb_true_intro.
Qed.

(** X8.  [deleteNoteById] on a store in working order succeeds, whether
    or not the id exists; afterwards the id is absent, every other record
    reads as before, the counter is unchanged, and deleting the same id
    again changes nothing. *)
Theorem delete_removes_only_that_record (i : Z) (w : World) :
sound w = true →
let r := deleteNoteById i w in
fst r = true
∧ sound (snd r) = true
∧ present i (snd r) = false
∧ (∀ j, j ≠ i → stored_note j (snd r) = stored_note j w)
∧ sqlite_sequence (snd r) = sqlite_sequence w
∧ table (snd (deleteNoteById i (snd r))) = table (snd r).
Proof.
  intros Hs r. destruct (sound_inv w Hs) as (t & Ht & _ & _ & Hwf).
  subst r. rewrite (deleteNoteById_sound i w Hs t Ht). cbn [fst snd].
  assert (Hs' : sound (after [Delete i] (filter (λ r, has_id i r = false) t)
                         (sqlite_sequence w) w) = true).
  { rewrite sound_after. by apply wf_table_filter. }
  split; [done|]. split; [done|]. split.
  { unfold present. rewrite after_table. apply existsb_deleted. }
  split.
  { intros j Hj. unfold stored_note. rewrite after_table, Ht.
    by rewrite filter_id_after_delete. }
  split; [done|].
  rewrite (deleteNoteById_sound i _ Hs' _ (after_table _ _ _ _)). cbn [snd].
  rewrite !after_table. by rewrite filter_filter_same.
Qed.

Lemma delete_removes_only_that_record_witness :
let r := deleteNoteById 3 store_pending_3_7_9 in
fst r = true ∧ present 3 (snd r) = false
∧ stored_note 7 (snd r) = stored_note 7 store_pending_3_7_9.
Proof.
  assert (Hs : sound store_pending_3_7_9 = true) by (vm_compute; reflexivity).
  destruct (delete_removes_only_that_record 3 store_pending_3_7_9 Hs)
    as (H1 & _ & H2 & H3 & _).
  split; [exact H1|]. split; [exact H2|]. apply H3. discriminate.
Defined.

Lemma filter_id_after_update j i c (t : list Row) :
j ≠ i →
filter (λ r, has_id j r = true) (map (λ r, if has_id i r then mkRow i c else r) t)
= filter (λ r, has_id j r = true) t.
Proof.
  intros Hji. induction t as [|r t IH]; [done|]. cbn [map].
  rewrite !filter_cons, IH. unfold has_id.
  destruct (Z.eqb_spec (col_id r) i) as [E|E]; cbn [col_id].
  - destruct (Z.eqb_spec i j); [lia|].
    destruct (Z.eqb_spec (col_id r) j); [lia|].
    repeat case_decide; done.
  - done.
Qed.

Lemma map_update_absent i c (t : list Row) :
existsb (has_id i) t = false →
map (λ r, if has_id i r then mkRow i c else r) t = t.
Proof.
  induction t as [|r t IH]; [done|]. cbn [existsb map].
  intros [-> Ht]%orb_false_iff. by rewrite IH.
Qed.

Lemma wf_table_map f t q :
(∀ r, col_id (f r) = col_id r) → wf_table t q = true → wf_table (map f t) q = true.
Proof.
  intros Hf. unfold wf_table.
  rewrite (ascending_map 0 f t Hf).
  by rewrite (forallb_map_ids (λ i, i <=? q) f t Hf).
Qed.

Lemma present_in_range i w :
sound w = true → present i w = true → 0 < i ∧ CInt.in_range i.
Proof.
  intros Hs Hp. destruct (sound_inv w Hs) as (t & Ht & _ & _ & Hwf).
  unfold present in Hp. rewrite Ht in Hp.
  apply existsb_exists in Hp as (r & Hr & Hi).
  apply Z.eqb_eq in Hi. subst i.
  apply list_elem_of_In in Hr.
  destruct (wf_table_ids t _ r Hwf Hr) as [? ?]. split; [lia|done].
Qed.

Lemma updateNote_getNoteById (n : Note) (w : World) :
sound w = true → present (id n) w = true → valid_note n = true →
let u := updateNote n w in
let read := getNoteById (id n) (snd u) in
fst u = true
∧ sound (snd u) = true
∧ id (fst read) = id n
∧ same_fields (fst read) n
∧ sqlite_sequence (snd u) = sqlite_sequence w
∧ ∀ j, j ≠ id n → stored_note j (snd u) = stored_note j w.
Proof.
  intros Hs Hp Hv u read. destruct (sound_inv w Hs) as (t & Ht & _ & _ & Hwf).
  destruct (present_in_range _ w Hs Hp) as (Hpos & Hin).
  assert (Hid : id n ≠ -1) by lia.
  subst read u. rewrite (updateNote_sound n w Hs t Ht Hid). cbn [fst snd].
  set (t' := map _ t).
  assert (Hs' : sound (after [Update (id n) (bound n)] t' (sqlite_sequence w) w) = true).
  { rewrite sound_after. subst t'. apply wf_table_map; [|done].
    intros r. unfold has_id. by destruct (Z.eqb_spec (col_id r) (id n)). }
  rewrite (getNoteById_sound (id n) _ Hs' t' (after_table _ _ _ _)). cbn [fst].
  assert (He : existsb (has_id (id n)) t = true).
  { unfold present in Hp. by rewrite Ht in Hp. }
  destruct (filter_updated (id n) (bound n) t He) as (rest & Hf).
  subst t'. rewrite Hf.
  destruct (fetch_bound (id n) n Hin Hv) as (H1 & H2).
  split; [done|]. split; [done|]. split; [done|]. split; [done|]. split; [done|].
  intros j Hj. unfold stored_note. rewrite after_table, Ht.
  by rewrite filter_id_after_update.
Qed.

(** X9.  [updateNote] of a record of the data model whose id exists
    succeeds, and [getNoteById] then returns that id with the same
    fields; every other record reads as before and the counter is
    unchanged. *)
Theorem update_then_read_round_trip (n : Note) (w : World) :
sound w = true → present (id n) w = true → valid_note n = true →
let u := updateNote n w in
let read := getNoteById (id n) (snd u) in
fst u = true
∧ sound (snd u) = true
∧ id (fst read) = id n
∧ same_fields (fst read) n
∧ sqlite_sequence (snd u) = sqlite_sequence w
∧ ∀ j, j ≠ id n → stored_note j (snd u) = stored_note j w.
Proof. exact (updateNote_getNoteById n w). Qed.

Lemma update_then_read_round_trip_witness :
let n := mkNote 7 "hidden" "/home/user/notes/todo.md" (mkQPoint 300 100)
           (mkQSize 320 240)
           (mkNoteStyle (Double.div (Double.of_int 40) Double.hundred) "#336699" 25) in
let u := updateNote n store_pending_3_7_9 in
fst u = true ∧ same_fields (fst (getNoteById 7 (snd u))) n.
Proof.
  intros n.
  assert (Hs : sound store_pending_3_7_9 = true) by (vm_compute; reflexivity).
  assert (Hp : present (id n) store_pending_3_7_9 = true) by (vm_compute; reflexivity).
  assert (Hv : valid_note n = true) by (vm_compute; reflexivity).
  destruct (update_then_read_round_trip n store_pending_3_7_9 Hs Hp Hv)
    as (H1 & _ & _ & H2 & _).
  split; [exact H1|exact H2].
Defined.

(** X10.  [updateNote] never creates a record.  With id -1 it returns
    [false] without touching the store; with any other id that does not
    exist it returns [true], leaves the table as it was, and the id still
    reads as the default note. *)
Theorem update_of_missing_record_creates_nothing (n : Note) (w : World) :
(id n = -1 → updateNote n w = (false, w))
∧ (sound w = true → id n ≠ -1 → present (id n) w = false →
   fst (updateNote n w) = true
   ∧ table (snd (updateNote n w)) = table w
   ∧ fst (getNoteById (id n) (snd (updateNote n w))) = defaultNote).
Proof.
  split.
  - intros Hi. unfold updateNote. by rewrite Hi.
  - intros Hs Hid Hp. destruct (sound_inv w Hs) as (t & Ht & _ & _ & Hwf).
    rewrite (updateNote_sound n w Hs t Ht Hid). cbn [fst snd].
    unfold present in Hp. rewrite Ht in Hp.
    rewrite after_table, map_update_absent, Ht by done.
    split; [done|]. split; [done|].
    rewrite (getNoteById_sound (id n) _ (sound_after_same _ w t Hs Ht) t
               (after_table _ _ _ _)).
    cbn [fst]. by rewrite filter_has_id_absent.
Qed.

Lemma update_of_missing_record_creates_nothing_witness :
let n := set_id 42 defaultNote in
fst (updateNote n store_one) = true
∧ table (snd (updateNote n store_one)) = table store_one.
Proof.
  intros n.
  destruct (update_of_missing_record_creates_nothing n store_one) as (_ & H).
  destruct H as (H1 & H2 & _).
  - reflexivity.
  - discriminate.
  - reflexivity.
  - split; [exact H1|exact H2].
Defined.

(** X11.  After [addNote] the listing is the listing before followed
    by one more note, whose id is the successor of the counter and whose
    fields are those of the note added. *)
Theorem add_then_list_appends (n : Note) (w : World) :
sound w = true → sqlite_sequence w < CInt.INT_MAX → valid_note n = true →
∃ m, fst (getAllNotes (snd (addNote n w))) = fst (getAllNotes w) ++ [m]
     ∧ id m = sqlite_sequence w + 1
     ∧ same_fields m n.
Proof.
  intros Hs Hq Hv. destruct (sound_inv w Hs) as (t & Ht & _ & _ & Hwf).
  rewrite (addNote_sound n w Hs t Ht). cbn [snd].
  set (q := sqlite_sequence w).
  assert (Hq0 : 0 <= q).
  { unfold wf_table in Hwf. repeat (apply andb_prop in Hwf as [Hwf ?]). lia. }
  assert (Hs' : sound (after [Insert (bound n)] (t ++ [mkRow (q + 1) (bound n)])
                         (q + 1) w) = true).
  { rewrite sound_after.
    pose proof (run_stmt_wf (Insert (bound n)) t q Hwf) as H. cbn in H.
    apply H. lia. }
  rewrite (getAllNotes_sound _ Hs' _ (after_table _ _ _ _)).
  rewrite (getAllNotes_sound w Hs t Ht). cbn [fst].
  rewrite map_app. cbn [map].
  assert (Hin : CInt.in_range (q + 1)).
  { unfold CInt.in_range, CInt.INT_MIN, CInt.INT_MAX in *. lia. }
  destruct (fetch_bound (q + 1) n Hin Hv) as (H1 & H2).
  eexists. split; [reflexivity|]. split; done.
Qed.

Lemma add_then_list_appends_witness :
∃ m, fst (getAllNotes (snd (addNote (pending defaultNote) store_one)))
     = fst (getAllNotes store_one) ++ [m]
     ∧ id m = 2.
Proof.
  destruct (add_then_list_appends (pending defaultNote) store_one) as (m & H1 & H2 & _).
  - reflexivity.
  - vm_compute. reflexivity.
  - vm_compute. reflexivity.
  - exists m. split; [exact H1|exact H2].
Defined.

Lemma filter_id_after_status j i st (t : list Row) :
filter (λ r, has_id j r = true)
  (map (λ r, if has_id i r then set_row_status st r else r) t)
= map (λ r, if has_id i r then set_row_status st r else r)
    (filter (λ r, has_id j r = true) t).
Proof.
  induction t as [|r t IH]; [done|]. cbn [map].
  rewrite !filter_cons, IH.
  assert (E : has_id j (if has_id i r then set_row_status st r else r) = has_id j r).
  { by destruct (has_id i r). }
  rewrite E. by case_decide.
Qed.

(** X12.  [setNoteStatus] with a status that is not empty changes the
    status and nothing else: the record reads back as before with the
    new status, every other record reads as before, and the listing has
    the same ids in the same order.  (The empty text is left out
    because it also stands for the null [QString], which the NOT NULL
    column refuses.) *)
Theorem status_change_keeps_the_rest (i : Z) (st : string) (w : World) :
sound w = true → st ≠ "" →
let r := setNoteStatus i st w in
stored_note i (snd r) = set_status st <$> stored_note i w
∧ (∀ j, j ≠ i → stored_note j (snd r) = stored_note j w)
∧ map id (fst (getAllNotes (snd r))) = map id (fst (getAllNotes w)).
Proof.
  intros Hs _ r. destruct (sound_inv w Hs) as (t & Ht & _ & _ & Hwf).
  subst r. rewrite (setNoteStatus_sound i st w Hs t Ht). cbn [snd].
  set (f := λ r, if has_id i r then set_row_status st r else r).
  assert (Hf : ∀ r, col_id (f r) = col_id r).
  { intros r. unfold f. by destruct (has_id i r). }
  assert (Hs' : sound (after [UpdateStatus i st] (map f t) (sqlite_sequence w) w) = true).
  { rewrite sound_after. by apply wf_table_map. }
  unfold stored_note. rewrite after_table, Ht.
  split; [|split].
  - subst f. rewrite filter_id_after_status.
    destruct (filter (λ r, has_id i r = true) t) as [|r rest] eqn:E; [done|].
    cbn. assert (Hr : has_id i r = true).
    { assert (Hin : r ∈ filter (λ r, has_id i r = true) t) by (rewrite E; left).
      by apply list_elem_of_filter in Hin as [? _]. }
    by rewrite Hr.
  - intros j Hj. subst f. rewrite filter_id_after_status.
    destruct (filter (λ r, has_id j r = true) t) as [|r rest] eqn:E; [done|].
    cbn. assert (Hr : has_id j r = true).
    { assert (Hin : r ∈ filter (λ r, has_id j r = true) t) by (rewrite E; left).
      by apply list_elem_of_filter in Hin as [? _]. }
    assert (Hi : has_id i r = false).
    { unfold has_id in *. apply Z.eqb_eq in Hr. apply Z.eqb_neq. lia. }
    by rewrite Hi.
  - rewrite (getAllNotes_sound _ Hs' _ (after_table _ _ _ _)).
    rewrite (getAllNotes_sound w Hs t Ht). cbn [fst].
    rewrite !map_map. apply map_ext. intros r. cbn. by rewrite Hf.
Qed.

Lemma status_change_keeps_the_rest_witness :
let r := setNoteStatus 3 "hidden" store_pending_3_7_9 in
stored_note 3 (snd r) = set_status "hidden" <$> stored_note 3 store_pending_3_7_9
∧ stored_note 7 (snd r) = stored_note 7 store_pending_3_7_9.
Proof.
  assert (Hs : sound store_pending_3_7_9 = true) by (vm_compute; reflexivity).
  assert (Hne : "hidden" ≠ "") by discriminate.
  destruct (status_change_keeps_the_rest 3 "hidden" store_pending_3_7_9 Hs Hne)
    as (H1 & H2 & _).
  split; [exact H1|]. apply H2. discriminate.
Defined.

End StoreRecords.

(** ** The hit test of the drag/resize mode *)

Section HitTest.

Import DesktopNotesApplet.

(** [contains] on a rectangle whose extents are not negative. *)
Lemma contains_spec p x y w h :
0 <= w → 0 <= h →
Rect.contains p (mkQRectF x y w h)
= (0 <? w) && (0 <? h) && (x <=? px p) && (px p <=? x + w)
  && (y <=? py p) && (py p <=? y + h).
Proof.
  intros Hw Hh. unfold Rect.contains. cbn [xp yp rw rh].
  destruct (Z.ltb_spec w 0); [lia|]. destruct (Z.ltb_spec h 0); [lia|].
  rewrite (Z.ltb_antisym x (px p)), (Z.ltb_antisym (px p) (x + w)),
    (Z.ltb_antisym y (py p)), (Z.ltb_antisym (py p) (y + h)).
  destruct (Z.eqb_spec x (x + w)).
  { destruct (Z.ltb_spec 0 w); [lia|done]. }
  destruct (Z.ltb_spec 0 w); [|lia].
  destruct (Z.eqb_spec y (y + h)); (destruct (Z.ltb_spec 0 h); [try lia|try lia]);
    destruct (x <=? px p), (px p <=? x + w), (y <=? py p), (py p <=? y + h); done.
Qed.

Lemma getResizeHandle_spec p a :
m_dragResizeMode a = true → 20 <= rw (geometry a) → 20 <= rh (geometry a) →
let W := rw (geometry a) in
let H := rh (geometry a) in
let x := px p in
let y := py p in
getResizeHandle p a
= if negb ((0 <=? x) && (x <=? W) && (0 <=? y) && (y <=? H)) then NoHandle
  else if (x <=? 10) && (y <=? 10) then TopLeft
  else if (W - 10 <=? x) && (y <=? 10) then TopRight
  else if (x <=? 10) && (H - 10 <=? y) then BottomLeft
  else if (W - 10 <=? x) && (H - 10 <=? y) then BottomRight
  else if x <=? 10 then Left
  else if W - 10 <=? x then Right
  else if y <=? 10 then Top
  else if H - 10 <=? y then Bottom
  else Body.
Proof.
  intros Hm HW HH W H x y. unfold getResizeHandle. rewrite Hm. cbn [negb].
  unfold rect, Rect.make, Rect.topLeft, Rect.topRight, Rect.bottomLeft,
    Rect.bottomRight, Rect.left, Rect.top, Rect.right, Rect.bottom,
    Rect.adjusted, point_sub.
  cbn [xp yp rw rh px py width height].
  fold W H.
  rewrite !contains_spec by lia. fold x y.
  destruct (Z.ltb_spec 0 10); [|lia]. cbn [andb].
  destruct (Z.ltb_spec 0 (W - 2 * 10)), (Z.ltb_spec 0 (H - 2 * 10));
  destruct (Z.leb_spec 0 x), (Z.leb_spec x W), (Z.leb_spec 0 y), (Z.leb_spec y H);
    cbn [andb negb orb];
    repeat match goal with
           | |- context [?a <=? ?b] =>
               first [ rewrite (proj2 (Z.leb_le a b)) by lia
                     | rewrite (proj2 (Z.leb_gt a b)) by lia
                     | destruct (Z.leb_spec a b) ]; cbn [andb negb orb]
           | |- context [?a <? ?b] =>
               first [ rewrite (proj2 (Z.ltb_lt a b)) by lia
                     | rewrite (proj2 (Z.ltb_ge a b)) by lia
                     | destruct (Z.ltb_spec a b) ]; cbn [andb negb orb]
           end; try reflexivity; try lia.
Qed.

End HitTest.

(** ** Handles and cursors by region *)

Section Handles.

Import DesktopNotesApplet.

Ltac split_handle :=
  repeat match goal with
         | |- context [?a <=? ?b] => destruct (Z.leb_spec a b); cbn [andb negb orb]
         end.

(** X19.  In drag/resize mode, on an applet of at least 20 by 20
    pixels, a point has a handle exactly when it lies in the rectangle of
    the applet (edges included); the handle is the body exactly when the
    point is more than 10 pixels away from every edge; and a press moves
    the left (top, right, bottom) edge exactly when the point lies within
    10 pixels of that edge, left and top having priority over right and
    bottom. *)
Theorem handle_regions (p : QPoint) (a : Applet) :
m_dragResizeMode a = true → 20 <= rw (geometry a) → 20 <= rh (geometry a) →
let W := rw (geometry a) in
let H := rh (geometry a) in
let h := getResizeHandle p a in
let inside := 0 <= px p <= W ∧ 0 <= py p <= H in
(h ≠ NoHandle ↔ inside)
∧ (h = Body ↔ 10 < px p < W - 10 ∧ 10 < py p < H - 10)
∧ (moves_left h = true ↔ inside ∧ px p <= 10)
∧ (moves_top h = true ↔ inside ∧ py p <= 10)
∧ (moves_right h = true ↔ inside ∧ 10 < px p ∧ W - 10 <= px p)
∧ (moves_bottom h = true ↔ inside ∧ 10 < py p ∧ H - 10 <= py p).
Proof.
  intros Hm HW HH W H h inside. subst h inside.
  rewrite (getResizeHandle_spec p a Hm HW HH). cbv zeta. fold W H.
  split_handle; cbn [moves_left moves_top moves_right moves_bottom];
    repeat split; intros; try done; try lia;
    repeat match goal with H : _ ∧ _ |- _ => destruct H end; try done; try lia.
Qed.

Lemma handle_regions_witness :
let a := in_drag_mode 1 (mkQRectF 100 100 200 150) in
getResizeHandle (mkQPoint 100 75) a = Body
∧ moves_left (getResizeHandle (mkQPoint 3 75) a) = true.
Proof.
  intros a.
  destruct (handle_regions (mkQPoint 100 75) a) as (_ & H1 & _);
    [reflexivity|cbn; lia|cbn; lia|].
  destruct (handle_regions (mkQPoint 3 75) a) as (_ & _ & H2 & _);
    [reflexivity|cbn; lia|cbn; lia|].
  split.
  - apply H1. cbn. lia.
  - apply H2. cbn. lia.
Defined.

(** X20.  Outside the drag/resize mode the cursor is the arrow.  In the
    mode, on an applet of at least 20 by 20 pixels, the cursor is the
    arrow exactly outside the rectangle, the move cursor exactly on the
    body, the horizontal resize cursor exactly on the left and right edge
    strips between the corners, and the vertical one exactly on the top
    and bottom strips. *)
Theorem cursor_regions (p : QPoint) (a : Applet) :
(m_dragResizeMode a = false → updateCursors p a = ArrowCursor)
∧ (m_dragResizeMode a = true → 20 <= rw (geometry a) → 20 <= rh (geometry a) →
   let W := rw (geometry a) in
   let H := rh (geometry a) in
   (updateCursors p a = ArrowCursor ↔ ¬ (0 <= px p <= W ∧ 0 <= py p <= H))
   ∧ (updateCursors p a = SizeAllCursor ↔ 10 < px p < W - 10 ∧ 10 < py p < H - 10)
   ∧ (updateCursors p a = SizeHorCursor
      ↔ (0 <= px p <= 10 ∨ (10 < px p ∧ W - 10 <= px p <= W))
        ∧ 10 < py p < H - 10)
   ∧ (updateCursors p a = SizeVerCursor
      ↔ (0 <= py p <= 10 ∨ (10 < py p ∧ H - 10 <= py p <= H))
        ∧ 10 < px p < W - 10)).
Proof.
  split.
  - intros Hm. unfold updateCursors. by rewrite Hm.
  - intros Hm HW HH W H. unfold updateCursors. rewrite Hm. cbn [negb].
    rewrite (getResizeHandle_spec p a Hm HW HH). cbv zeta. fold W H.
    split_handle; repeat split; intros; try done; try lia;
      repeat match goal with
             | H : _ ∧ _ |- _ => destruct H
             | H : _ ∨ _ |- _ => destruct H
             end; try done; try lia.
Qed.

Lemma cursor_regions_witness :
let a := in_drag_mode 1 (mkQRectF 100 100 200 150) in
updateCursors (mkQPoint 100 75) a = SizeAllCursor.
Proof.
  intros a.
  destruct (cursor_regions (mkQPoint 100 75) a) as (_ & H).
  destruct H as (_ & H & _); [reflexivity|cbn; lia|cbn; lia|].
  apply H. cbn. lia.
Defined.

End Handles.

(** ** Pointer gestures *)

Section Pointer.

Import DesktopNotesApplet.

Lemma mouseMoveEvent_overwritten last ev a :
left_down last = true →
mouseMoveEvent last (mouseMoveEvent ev a) = mouseMoveEvent last a.
Proof.
  intros Hl. unfold mouseMoveEvent. rewrite Hl.
  destruct (m_dragResizeMode a) eqn:Em; cbn [andb]; [|by rewrite Em].
  destruct (left_down ev); [|by rewrite Em].
  destruct (m_currentResizeHandle a) eqn:Eh;
    cbn [m_dragResizeMode setPreferredGeometry m_currentResizeHandle
         m_dragStartPosition m_originalGeometryOnDragStart];
    rewrite Em, ?Eh; reflexivity.
Qed.

Lemma moves_overwritten last moves : ∀ a,
left_down last = true →
fold_left (λ acc ev, mouseMoveEvent ev acc) (moves ++ [last]) a
= mouseMoveEvent last a.
Proof.
  induction moves as [|ev moves IH]; intros a Hl; [reflexivity|].
  cbn [app fold_left]. rewrite IH by done. by apply mouseMoveEvent_overwritten.
Qed.

(** X21.  A gesture does not accumulate error: in drag/resize mode the
    outcome of press, moves and release depends on the last move only, as
    every move is computed from the geometry at the press.  (Outside the
    mode a press starts the quick action, which is not modelled.) *)
Theorem last_move_decides (press last release : MouseEvent)
  (moves : list MouseEvent) (a : Applet) (w : World) :
m_dragResizeMode a = true → left_down last = true →
gesture press (moves ++ [last]) release a w = gesture press [last] release a w.
Proof.
  intros _ Hl. unfold gesture. by rewrite moves_overwritten.
Qed.

Lemma last_move_decides_witness :
let a := in_drag_mode 1 (mkQRectF 100 100 200 150) in
let press := left_press (mkQPoint 100 75) (mkQPoint 200 175) in
let last := left_move (mkQPoint 100 75) (mkQPoint 230 185) in
let release := left_release (mkQPoint 100 75) (mkQPoint 230 185) in
gesture press [left_move (mkQPoint 100 75) (mkQPoint 900 900); last] release a store_one
= gesture press [last] release a store_one.
Proof.
  intros a press last release.
  apply (last_move_decides press last release
           [left_move (mkQPoint 100 75) (mkQPoint 900 900)] a store_one);
    reflexivity.
Defined.

Lemma newGeometry_zero h g :
h ≠ NoHandle → 50 <= rw g → 30 <= rh g → newGeometry h g (mkQPoint 0 0) = g.
Proof.
  intros Hh Hw Hh'. destruct g as [x y w0 h0]. cbn in Hw, Hh'.
  destruct h; try done;
    cbv [newGeometry moves_left moves_top moves_right moves_bottom
         Rect.left Rect.top Rect.right Rect.bottom Rect.setLeft Rect.setTop
         Rect.setRight Rect.setBottom Rect.setWidth Rect.setHeight
         Rect.translate xp yp rw rh px py];
    repeat match goal with
           | |- context [if ?b <? ?c then _ else _] =>
               destruct (Z.ltb_spec b c); [lia|]
           end; f_equal; lia.
Qed.

(** X22.  A gesture on any handle of an applet of at least 50 by 30
    pixels whose geometry fits C++ [int]s, and whose pointer is back at
    the press position at the last move, commits the geometry it started
    from. *)
Theorem gesture_back_to_start_keeps_geometry (press last release : MouseEvent)
  (moves : list MouseEvent) (a : Applet) (w : World) :
m_dragResizeMode a = true → button press = LeftButton →
left_down last = true → button release = LeftButton →
getResizeHandle (pos press) a ≠ NoHandle →
screenPos last = screenPos press →
50 <= rw (geometry a) → 30 <= rh (geometry a) →
fits_int (geometry a) = true →
let r := gesture press (moves ++ [last]) release a w in
geometry (fst r) = geometry a
∧ position (m_note (fst r)) = Rect.topLeft (geometry a)
∧ size (m_note (fst r)) = Rect.size (geometry a).
Proof.
  intros Hm Hp Hl Hr Hh Hsp Hw Hh' Hfit r.
  destruct (gesture_commit a press moves last release w Hm Hp Hl Hr Hh)
    as (Hn & Hg & _).
  fold r in Hn, Hg.
  assert (Hd : point_sub (screenPos last) (screenPos press) = mkQPoint 0 0).
  { rewrite Hsp. unfold point_sub. f_equal; lia. }
  rewrite Hd, newGeometry_zero in Hn, Hg by done.
  destruct (narrow_fits _ Hfit) as [E1 E2]. rewrite E1, E2 in Hn.
  rewrite Hn, Hg. done.
Qed.

Lemma gesture_back_to_start_keeps_geometry_witness :
let a := in_drag_mode 1 (mkQRectF 100 100 200 150) in
let r := gesture (left_press (mkQPoint 2 2) (mkQPoint 102 102))
           [left_move (mkQPoint 2 2) (mkQPoint (-898) (-898));
            left_move (mkQPoint 2 2) (mkQPoint 102 102)]
           (left_release (mkQPoint 2 2) (mkQPoint 102 102)) a store_one in
geometry (fst r) = mkQRectF 100 100 200 150.
Proof.
  intros a.
  assert (Hh : getResizeHandle (pos (left_press (mkQPoint 2 2) (mkQPoint 102 102))) a
               ≠ NoHandle) by (vm_compute; discriminate).
  assert (Hw : 50 <= rw (geometry a)) by (vm_compute; discriminate).
  assert (Hh' : 30 <= rh (geometry a)) by (vm_compute; discriminate).
  assert (Hfit : fits_int (geometry a) = true) by (vm_compute; reflexivity).
  exact (proj1 (gesture_back_to_start_keeps_geometry
                  (left_press (mkQPoint 2 2) (mkQPoint 102 102))
                  (left_move (mkQPoint 2 2) (mkQPoint 102 102))
                  (left_release (mkQPoint 2 2) (mkQPoint 102 102))
                  [left_move (mkQPoint 2 2) (mkQPoint (-898) (-898))] a store_one
                  eq_refl eq_refl eq_refl eq_refl Hh eq_refl Hw Hh' Hfit)).
Defined.

Lemma moves_outside_mode moves : ∀ a,
m_dragResizeMode a = false ∨ m_currentResizeHandle a = NoHandle →
fold_left (λ acc ev, mouseMoveEvent ev acc) moves a = a.
Proof.
  induction moves as [|ev moves IH]; intros a H; [reflexivity|].
  cbn [fold_left].
  assert (E : mouseMoveEvent ev a = a).
  { unfold mouseMoveEvent. destruct H as [-> | ->]; [done|].
    by destruct (m_dragResizeMode a && left_down ev). }
  rewrite E. by apply IH.
Qed.

(** X23.  Outside the drag/resize mode, moves and a release change
    neither the applet nor the store.  In the mode, a gesture that starts
    with another button while no handle is held, or with a left press on
    a point without a handle, moves nothing and writes nothing. *)
Theorem gesture_without_handle_changes_nothing (press release : MouseEvent)
  (moves : list MouseEvent) (a : Applet) (w : World) :
(m_dragResizeMode a = false →
 mouseReleaseEvent release
   (fold_left (λ acc ev, mouseMoveEvent ev acc) moves a) w = (a, w))
∧ (m_dragResizeMode a = true → button press ≠ LeftButton →
   m_currentResizeHandle a = NoHandle →
   gesture press moves release a w = (a, w))
∧ (m_dragResizeMode a = true → button press = LeftButton →
   getResizeHandle (pos press) a = NoHandle →
   gesture press moves release a w = (set_m_currentResizeHandle NoHandle a, w)).
Proof.
  split; [|split].
  - intros Hm. rewrite moves_outside_mode by (by left).
    unfold mouseReleaseEvent. by rewrite Hm.
  - intros Hm Hb Hh. unfold gesture.
    assert (E : mousePressEvent press a = a).
    { unfold mousePressEvent. rewrite Hm. by destruct (button press). }
    rewrite E, moves_outside_mode by (by right).
    unfold mouseReleaseEvent. rewrite Hm, Hh. by destruct (button release).
  - intros Hm Hb Hh. unfold gesture.
    assert (E : mousePressEvent press a = set_m_currentResizeHandle NoHandle a).
    { unfold mousePressEvent. rewrite Hm, Hb, Hh. reflexivity. }
    rewrite E, moves_outside_mode by (by right).
    unfold mouseReleaseEvent. cbn [m_dragResizeMode set_m_currentResizeHandle
                                     m_currentResizeHandle].
    rewrite Hm. by destruct (button release).
Qed.

Lemma gesture_without_handle_changes_nothing_witness :
let a := in_drag_mode 1 (mkQRectF 100 100 200 150) in
gesture (left_press (mkQPoint 300 75) (mkQPoint 400 175))
  [left_move (mkQPoint 350 75) (mkQPoint 450 175)]
  (left_release (mkQPoint 350 75) (mkQPoint 450 175)) a store_one
= (a, store_one).
Proof.
  intros a.
  destruct (gesture_without_handle_changes_nothing
              (left_press (mkQPoint 300 75) (mkQPoint 400 175))
              (left_release (mkQPoint 350 75) (mkQPoint 450 175))
              [left_move (mkQPoint 350 75) (mkQPoint 450 175)] a store_one)
    as (_ & _ & H).
  rewrite H; reflexivity.
Defined.

End Pointer.

(** ** Restart with a remembered id *)

Section Restart.

Import DatabaseManager DesktopNotesApplet.

Lemma filter_has_id_present i (t : list Row) :
existsb (has_id i) t = true →
∃ r rest, filter (λ r, has_id i r = true) t = r :: rest ∧ col_id r = i ∧ r ∈ t.
Proof.
  induction t as [|x t IH]; [done|]. cbn [existsb]. rewrite filter_cons.
  destruct (has_id i x) eqn:E.
  - intros _. case_decide; [|done]. exists x, (filter (λ r, has_id i r = true) t).
    split; [done|]. split; [by apply Z.eqb_eq|left].
  - cbn. intros H. case_decide; [congruence|].
    destruct (IH H) as (r & rest & H1 & H2 & H3). exists r, rest.
    split; [done|]. split; [done|by right].
Qed.

Lemma fetch_default i :
fetch (mkRow i (bound defaultNote)) = set_id (CInt.wrap i) defaultNote.
Proof.
  unfold fetch, set_id. cbn [cols col_id id status filepath position size style].
  f_equal.
Qed.

(** A start with a remembered id whose row exists. *)
Lemma start_remembered_present (c : Z) (g : QRectF) (w : World) (t : list Row) :
sound w = true → table w = Some t → present c w = true →
∃ row rest, filter (λ r, has_id c r = true) t = row :: rest
  ∧ id (fetch row) = c
  ∧ start (Some c) g w
    = (let a := set_m_note (fetch row) (readConfig (constructed (Some c) g)) in
       if String.eqb (status (fetch row)) "hidden" then setVisible false a else a,
       after [SelectById c] t (sqlite_sequence w) w).
Proof.
  intros Hs Ht Hp.
  pose proof (sound_wf w t Hs Ht) as Hwf.
  unfold present in Hp. rewrite Ht in Hp.
  destruct (filter_has_id_present c t Hp) as (row & rest & Hf & Hc & Hin).
  destruct (wf_table_ids t _ row Hwf Hin) as [Hpos Hrange].
  assert (Hid : id (fetch row) = c).
  { cbn. rewrite wrap_in_range by done. done. }
  exists row, rest. split; [done|]. split; [done|].
  assert (Hv : isValid (set_id c defaultNote) = true).
  { apply isValid_pos. cbn. lia. }
  unfold start, init.
  set (a0 := readConfig (constructed (Some c) g)).
  change (m_note a0) with (set_id c defaultNote). rewrite Hv. cbn [negb].
  erewrite bind_run by (by apply openDb_sound).
  erewrite bind_run by reflexivity.
  erewrite bind_run.
  2:{ apply openDb_sound with (t := t); [by apply sound_after_same|reflexivity]. }
  rewrite after_after, after_sequence.
  erewrite bind_run.
  2:{ unfold loadNoteData. change (m_note a0) with (set_id c defaultNote).
      rewrite Hv. cbn [negb].
      erewrite bind_run.
      2:{ apply getNoteById_sound with (t := t);
            [by apply sound_after_same|reflexivity]. }
      cbn [id set_id]. rewrite Hf.
      rewrite (isValid_pos (fetch row)) by (rewrite Hid; lia).
      rewrite after_after, after_sequence. reflexivity. }
  cbn [m_note set_m_note]. reflexivity.
Qed.

(** X13.  An instance that starts with a remembered id whose record
    exists shows that record: its note is the stored one, the
    configuration slot is kept, it is visible unless the stored status is
    "hidden", its geometry is the one the shell gave it (the stored
    position is not applied), and the only statement run is the SELECT of
    that id. *)
Theorem start_restores_remembered_note (c : Z) (g : QRectF) (w : World) (t : list Row) :
sound w = true → table w = Some t → present c w = true →
let r := start (Some c) g w in
Some (m_note (fst r)) = stored_note c w
∧ id (m_note (fst r)) = c
∧ config_noteId (fst r) = Some c
∧ geometry (fst r) = g
∧ visible (fst r) = negb (String.eqb (status (m_note (fst r))) "hidden")
∧ snd r = after [SelectById c] t (sqlite_sequence w) w.
Proof.
  intros Hs Ht Hp r.
  destruct (start_remembered_present c g w t Hs Ht Hp) as (row & rest & Hf & Hid & E).
  subst r. rewrite E. cbn [fst snd]. unfold stored_note. rewrite Ht, Hf. cbn [head fmap option_fmap option_map].
  destruct (String.eqb (status (fetch row)) "hidden") eqn:Eh;
    cbn [m_note set_m_note setVisible visible geometry config_noteId readConfig
         constructed negb];
    rewrite ?Eh; repeat split; done.
Qed.

Lemma start_restores_remembered_note_witness :
let r := start (Some 5) (mkQRectF 0 0 200 150) store_pending_5 in
id (m_note (fst r)) = 5 ∧ geometry (fst r) = mkQRectF 0 0 200 150
∧ table (snd r) = table store_pending_5.
Proof.
  destruct (start_restores_remembered_note 5 (mkQRectF 0 0 200 150) store_pending_5
              [mkRow 5 (bound (pending (at_position 300 100 defaultNote)))])
    as (_ & H1 & _ & H2 & _ & H3).
  - reflexivity.
  - reflexivity.
  - reflexivity.
  - split; [exact H1|]. split; [exact H2|]. rewrite H3. reflexivity.
Defined.

(** X14.  [handleHide] hides the applet and stores the status "hidden";
    an instance started afterwards with the same remembered id reads that
    status and is not visible. *)
Theorem hidden_note_stays_hidden_after_restart (a : Applet) (g : QRectF) (w : World) :
sound w = true → present (id (m_note a)) w = true →
let h := handleHide a w in
let r := start (Some (id (m_note a))) g (snd h) in
visible (fst h) = false
∧ stored_status (id (m_note a)) (snd h) = Some "hidden"
∧ visible (fst r) = false
∧ status (m_note (fst r)) = "hidden"
∧ id (m_note (fst r)) = id (m_note a).
Proof.
  intros Hs Hp h r. destruct (sound_inv w Hs) as (t & Ht & _ & _ & Hwf).
  assert (He : existsb (has_id (id (m_note a))) t = true).
  { unfold present in Hp. by rewrite Ht in Hp. }
  destruct (filter_has_id_present _ t He) as (row & rest0 & _ & Hc & Hin).
  destruct (wf_table_ids t _ row Hwf Hin) as [Hpos Hrange]. rewrite Hc in *.
  assert (Hv : isValid (m_note a) = true) by (apply isValid_pos; lia).
  set (n := set_status "hidden" (m_note a)).
  set (t' := map (λ r, if has_id (id n) r then mkRow (id n) (bound n) else r) t).
  assert (Eh : h = (setVisible false (set_m_note n a),
                    after [Update (id n) (bound n)] t' (sqlite_sequence w) w)).
  { subst h. unfold handleHide. rewrite Hv. cbn [negb].
    unfold saveNoteData. cbn [m_note set_m_note]. fold n.
    change (isValid n) with (isValid (m_note a)). rewrite Hv. cbn [negb].
    erewrite bind_run.
    2:{ erewrite bind_run; [reflexivity|].
        apply updateNote_sound with (t := t); [done|done|]. cbn. lia. }
    reflexivity. }
  assert (Hs' : sound (snd h) = true).
  { rewrite Eh. cbn [snd]. rewrite sound_after. subst t'.
    apply wf_table_map; [|done].
    intros x. unfold has_id. by destruct (Z.eqb_spec (col_id x) (id n)). }
  destruct (filter_updated (id n) (bound n) t He) as (rest & Hf).
  fold t' in Hf.
  assert (Hp' : present (id (m_note a)) (snd h) = true).
  { rewrite Eh. cbn [snd]. unfold present. rewrite after_table.
    change (id (m_note a)) with (id n).
    destruct (existsb (has_id (id n)) t') eqn:E; [done|].
    apply filter_has_id_absent in E. congruence. }
  destruct (start_remembered_present (id (m_note a)) g (snd h) t' Hs')
    as (row' & rest' & Hf' & Hid' & E); [by rewrite Eh|done|].
  change (id (m_note a)) with (id n) in Hf'. rewrite Hf in Hf'.
  injection Hf' as <- <-.
  subst r. rewrite E. cbn [fst snd].
  change (status (fetch (mkRow (id n) (bound n)))) with "hidden".
  cbn [String.eqb Ascii.eqb Bool.eqb].
  rewrite Eh. cbn [fst snd]. unfold stored_status. rewrite after_table.
  change (id (m_note a)) with (id n). rewrite Hf.
  repeat split. exact Hid'.
Qed.

Lemma hidden_note_stays_hidden_after_restart_witness :
let a := in_drag_mode 1 (mkQRectF 100 100 200 150) in
let h := handleHide a store_one in
let r := start (Some 1) (mkQRectF 100 100 200 150) (snd h) in
visible (fst h) = false ∧ visible (fst r) = false ∧ status (m_note (fst r)) = "hidden".
Proof.
  destruct (hidden_note_stays_hidden_after_restart
              (in_drag_mode 1 (mkQRectF 100 100 200 150)) (mkQRectF 100 100 200 150)
              store_one) as (H1 & _ & H2 & H3 & _).
  - reflexivity.
  - reflexivity.
  - split; [exact H1|]. split; [exact H2|exact H3].
Defined.

End Restart.

(** ** First start *)

Section FirstStart.

Import DatabaseManager DesktopNotesApplet.

Lemma sound_counter_nonneg w : sound w = true → 0 <= sqlite_sequence w.
Proof.
  intros Hs. destruct (sound_inv w Hs) as (t & _ & _ & _ & Hwf).
  unfold wf_table in Hwf. repeat (apply andb_prop in Hwf as [Hwf ?]). lia.
Qed.

Lemma wf_table_snoc t q c :
wf_table t q = true → q < CInt.INT_MAX →
wf_table (t ++ [mkRow (q + 1) c]) (q + 1) = true.
Proof.
  intros Hwf Hq. pose proof (run_stmt_wf (Insert c) t q Hwf) as H. cbn in H.
  by apply H.
Qed.

(** X15.  An instance that starts without a remembered id on a store
    with no record awaiting placement creates exactly one record, the
    default note, under the next id; it remembers that id, stays visible
    at the geometry the shell gave it, and the INSERT is its only
    write. *)
Theorem first_start_creates_default_record (g : QRectF) (w : World) (t : list Row) :
sound w = true → table w = Some t → first_pending (map fetch t) = None →
sqlite_sequence w < CInt.INT_MAX →
let q := sqlite_sequence w in
let r := start None g w in
m_note (fst r) = set_id (q + 1) defaultNote
∧ config_noteId (fst r) = Some (q + 1)
∧ geometry (fst r) = g
∧ visible (fst r) = true
∧ table (snd r) = Some (t ++ [mkRow (q + 1) (bound defaultNote)])
∧ sqlite_sequence (snd r) = q + 1
∧ filter is_write (trace (snd r))
  = filter is_write (trace w) ++ [Insert (bound defaultNote)].
Proof.
  intros Hs Ht Hfind Hq q r.
  pose proof (sound_wf w t Hs Ht) as Hwf.
  pose proof (sound_counter_nonneg w Hs) as Hq0. fold q in Hq0.
  assert (Hin : CInt.in_range (q + 1)).
  { unfold CInt.in_range, CInt.INT_MIN, CInt.INT_MAX in *. lia. }
  set (t' := t ++ [mkRow (q + 1) (bound defaultNote)]).
  assert (Hs1 : ∀ ss, sound (after ss t' (q + 1) w) = true).
  { intros ss. rewrite sound_after. by apply wf_table_snoc. }
  assert (E : r = (set_m_note (set_id (q + 1) defaultNote)
                     (writeConfig (set_m_note (set_id (q + 1) defaultNote)
                                     (readConfig (constructed None g)))),
                   after [SelectAll; SelectAll; Insert (bound defaultNote);
                          SelectById (q + 1)] t' (q + 1) w)).
  { subst r. unfold start, init.
    set (a0 := readConfig (constructed None g)).
    change (isValid (m_note a0)) with false. cbn [negb].
    erewrite bind_run by (by apply openDb_sound).
    erewrite bind_run.
    2:{ apply initializeNewNote_creates with (t := t);
          [by apply sound_after_same|reflexivity|done|by rewrite after_sequence]. }
    rewrite after_after, after_sequence. fold q. fold t'.
    erewrite bind_run by (by apply openDb_sound).
    rewrite after_after, after_sequence.
    erewrite bind_run.
    2:{ unfold loadNoteData. cbn [m_note set_m_note writeConfig set_config_noteId].
        rewrite isValid_pos by (cbn; lia). cbn [negb].
        erewrite bind_run by (by apply getNoteById_sound).
        cbn [id set_id]. subst t'.
        rewrite filter_has_id_appended.
        2:{ unfold wf_table in Hwf. repeat (apply andb_prop in Hwf as [Hwf ?]). done. }
        rewrite fetch_default, wrap_in_range by done.
        rewrite isValid_pos by (cbn; lia).
        rewrite after_after. reflexivity. }
    reflexivity. }
  rewrite E. cbn [fst snd]. rewrite after_table, after_sequence.
  repeat split.
  unfold after, opening. cbn [trace]. rewrite !filter_app.
  destruct (conn_open w); cbn; by rewrite ?app_nil_r.
Qed.

Lemma first_start_creates_default_record_witness :
let r := start None (mkQRectF 0 0 200 150) store_one in
m_note (fst r) = set_id 2 defaultNote ∧ config_noteId (fst r) = Some 2.
Proof.
  destruct (first_start_creates_default_record (mkQRectF 0 0 200 150) store_one
              [mkRow 1 (bound defaultNote)]) as (H1 & H2 & _).
  - reflexivity.
  - reflexivity.
  - vm_compute. reflexivity.
  - vm_compute. reflexivity.
  - split; [exact H1|exact H2].
Defined.

(** X16.  When the store cannot be opened, an instance that starts
    without a remembered id ends up as constructed, with the invalid id
    -1 and the world untouched; hiding, deleting, styling and saving then
    do nothing. *)
Theorem unavailable_store_leaves_applet_without_record (g : QRectF) (w : World)
  (events : list DialogEvent) (b : DialogButton) :
unavailable w = true →
let r := start None g w in
fst r = constructed None g
∧ isValid (m_note (fst r)) = false
∧ snd r = w
∧ handleHide (fst r) w = (fst r, w)
∧ handleDelete (fst r) w = (false, w)
∧ handleStyling events b (fst r) w = (fst r, w)
∧ saveNoteData (fst r) w = (tt, w).
Proof.
  unfold unavailable. destruct w as [[] [] t q f tr]; cbn; try done.
Qed.

Lemma unavailable_store_leaves_applet_without_record_witness :
let w := mkWorld false false None 0 [] [] in
let r := start None (mkQRectF 0 0 200 150) w in
isValid (m_note (fst r)) = false ∧ snd r = w.
Proof.
  destruct (unavailable_store_leaves_applet_without_record (mkQRectF 0 0 200 150)
              (mkWorld false false None 0 [] []) [] OkButton) as (_ & H1 & H2 & _).
  - reflexivity.
  - split; [exact H1|exact H2].
Defined.

End FirstStart.

(** ** Add New Note and Delete *)

Section AddAndDelete.

Import DatabaseManager DesktopNotesApplet.

Lemma find_app_none {A : Type} (P : A → bool) l l' :
List.find P l = None → List.find P (l ++ l') = List.find P l'.
Proof.
  induction l as [|x l IH]; [done|]. cbn. destruct (P x); [done|]. exact IH.
Qed.

Lemma fetch_default_at i x y st :
CInt.in_range i → CInt.in_range x → CInt.in_range y →
fetch (mkRow i (bound (set_status st (at_position x y defaultNote))))
= set_id i (set_status st (at_position x y defaultNote)).
Proof.
  intros Hi Hx Hy. unfold fetch, set_id.
  cbn [cols col_id id status filepath position size style bound set_status
       at_position set_position col_status col_filepath col_position_x
       col_position_y col_size_width col_size_height col_style px py width height
       defaultNote].
  rewrite !wrap_in_range by done. f_equal.
Qed.

Lemma handleAddNewNote_sound (a : Applet) (w : World) (t : list Row) :
sound w = true → table w = Some t → sqlite_sequence w + 2 <= CInt.INT_MAX →
let q := sqlite_sequence w in
let n := at_position (Rect.right (geometry a) + 15) (Rect.top (geometry a)) defaultNote in
handleAddNewNote a w
= (tt, after [Insert (bound n); Insert (bound (pending n))]
         (t ++ [mkRow (q + 1) (bound n); mkRow (q + 2) (bound (pending n))])
         (q + 2) w).
Proof.
  intros Hs Ht Hq q n.
  pose proof (sound_wf w t Hs Ht) as Hwf.
  pose proof (sound_counter_nonneg w Hs) as Hq0. fold q in Hq0.
  unfold handleAddNewNote. fold n.
  erewrite bind_run by (by apply addNote_sound).
  fold q.
  rewrite wrap_in_range by (unfold CInt.in_range, CInt.INT_MIN, CInt.INT_MAX in *; lia).
  destruct (Z.eqb_spec (q + 1) (-1)); [lia|]. cbn [negb].
  erewrite bind_run.
  2:{ apply addNote_sound with (t := t ++ [mkRow (q + 1) (bound n)]); [|reflexivity].
      rewrite sound_after. apply wf_table_snoc; [done|].
      unfold CInt.INT_MAX in *. lia. }
  rewrite after_after, after_sequence. unfold ret.
  rewrite <- app_assoc. cbn [app].
  replace (q + 1 + 1) with (q + 2) by lia. reflexivity.
Qed.

(** X17.  [handleAddNewNote] inserts two records at the position 15
    pixels right of the applet: a default one with status "shown" and one
    with status "pending_placement".  With no other record awaiting
    placement, the next instance that starts without a remembered id
    adopts the second one, at that position with the default size, and
    marks it "shown"; the first record stays in the store, shown by no
    instance. *)
Theorem add_new_note_is_adopted_by_next_instance (a : Applet) (g : QRectF)
  (w : World) (t : list Row) :
sound w = true → table w = Some t → first_pending (map fetch t) = None →
sqlite_sequence w + 2 <= CInt.INT_MAX →
int_range (Rect.right (geometry a) + 15) = true →
int_range (Rect.top (geometry a)) = true →
let q := sqlite_sequence w in
let x := Rect.right (geometry a) + 15 in
let y := Rect.top (geometry a) in
let w1 := snd (handleAddNewNote a w) in
let r := start None g w1 in
table w1
= Some (t ++ [mkRow (q + 1) (bound (at_position x y defaultNote));
              mkRow (q + 2) (bound (pending (at_position x y defaultNote)))])
∧ id (m_note (fst r)) = q + 2
∧ status (m_note (fst r)) = "shown"
∧ geometry (fst r) = mkQRectF x y 200 150
∧ stored_status (q + 2) (snd r) = Some "shown"
∧ stored_status (q + 1) (snd r) = Some "shown"
∧ sqlite_sequence (snd r) = q + 2.
Proof.
  intros Hs Ht Hfind Hq Hx Hy q x y w1 r.
  pose proof (sound_wf w t Hs Ht) as Hwf.
  pose proof (sound_counter_nonneg w Hs) as Hq0. fold q in Hq0.
  set (n := at_position x y defaultNote).
  set (t1 := t ++ [mkRow (q + 1) (bound n); mkRow (q + 2) (bound (pending n))]).
  assert (E1 : w1 = after [Insert (bound n); Insert (bound (pending n))] t1 (q + 2) w).
  { subst w1. by rewrite (handleAddNewNote_sound a w t Hs Ht Hq). }
  assert (Hwf1 : wf_table t1 (q + 2) = true).
  { subst t1. change [mkRow (q + 1) (bound n); mkRow (q + 2) (bound (pending n))]
      with ([mkRow (q + 1) (bound n)] ++ [mkRow (q + 2) (bound (pending n))]).
    rewrite app_assoc. replace (q + 2) with (q + 1 + 1) by lia.
    apply wf_table_snoc; [apply wf_table_snoc; [done|]|];
      unfold CInt.INT_MAX in *; lia. }
  assert (Hin2 : CInt.in_range (q + 2)).
  { unfold CInt.in_range, CInt.INT_MIN, CInt.INT_MAX in *. lia. }
  assert (Hxr : CInt.in_range x) by (by apply int_range_in_range).
  assert (Hyr : CInt.in_range y) by (by apply int_range_in_range).
  set (m := set_id (q + 2) (pending n)).
  assert (Hfm : fetch (mkRow (q + 2) (bound (pending n))) = m).
  { apply fetch_default_at; done. }
  assert (Hfind1 : first_pending (map fetch t1) = Some m).
  { subst t1. rewrite map_app. unfold first_pending.
    rewrite find_app_none by exact Hfind. cbn [map]. rewrite Hfm. reflexivity. }
  assert (Hs1 : sound w1 = true) by (by rewrite E1, sound_after).
  assert (Ht1 : table w1 = Some t1) by (by rewrite E1).
  assert (Er : r = start None g w1) by reflexivity.
  rewrite (start_adopts g w1 t1 m Hs1 Ht1 Hfind1) in Er.
  split; [exact Ht1|].
  rewrite Er. cbn [fst snd m_note set_m_note].
  rewrite after_sequence.
  assert (Hfa : fetch (adopted_row m) = set_status "shown" m).
  { unfold adopted_row.
    change (bound (set_status "shown" m))
      with (bound (set_status "shown" (at_position x y defaultNote))).
    change (id m) with (q + 2). by rewrite fetch_default_at. }
  rewrite Hfa. cbn [id status set_status geometry writeConfig set_config_noteId
                     setPreferredGeometry].
  split; [done|]. split; [done|]. split; [done|].
  assert (Hle : forallb (λ r, col_id r <=? q) t = true).
  { unfold wf_table in Hwf. repeat (apply andb_prop in Hwf as [Hwf ?]). done. }
  unfold stored_status. rewrite after_table. unfold adopt_in, adopted_row. change (id m) with (q + 2).
  split; [|split].
  - destruct (filter_updated (q + 2) (bound (set_status "shown" m)) t1) as (rest & ->).
    { subst t1. rewrite existsb_app. cbn [existsb]. unfold has_id at 3. cbn [col_id].
      rewrite Z.eqb_refl. by rewrite !orb_true_r. }
    reflexivity.
  - rewrite filter_id_after_update by lia.
    subst t1. rewrite filter_app, filter_has_id_fresh by done.
    rewrite !filter_cons, filter_nil. unfold has_id. cbn [col_id].
    rewrite Z.eqb_refl. destruct (Z.eqb_spec (q + 2) (q + 1)); [lia|].
    repeat case_decide; done.
  - rewrite E1. by rewrite after_sequence.
Qed.

Lemma add_new_note_is_adopted_by_next_instance_witness :
let a := in_drag_mode 1 (mkQRectF 100 100 200 150) in
let g := mkQRectF 0 0 200 150 in
let w1 := snd (handleAddNewNote a store_one) in
let r := start None g w1 in
id (m_note (fst r)) = 3 ∧ geometry (fst r) = mkQRectF 315 100 200 150
∧ stored_status 2 (snd r) = Some "shown".
Proof.
  destruct (add_new_note_is_adopted_by_next_instance
              (in_drag_mode 1 (mkQRectF 100 100 200 150)) (mkQRectF 0 0 200 150)
              store_one [mkRow 1 (bound defaultNote)])
    as (_ & H1 & _ & H2 & _ & H3 & _).
  - reflexivity.
  - reflexivity.
  - vm_compute. reflexivity.
  - vm_compute. discriminate.
  - reflexivity.
  - reflexivity.
  - split; [exact H1|]. split; [exact H2|exact H3].
Defined.

Lemma map_fetch_delete i (t : list Row) :
(∀ r, r ∈ t → id (fetch r) = col_id r) →
map fetch (filter (λ r, has_id i r = false) t)
= filter (λ n, id n ≠ i) (map fetch t).
Proof.
  induction t as [|r t IH]; intros Hid; [done|]. cbn [map].
  rewrite !filter_cons.
  rewrite (Hid r) by left.
  rewrite <- IH by (intros; apply Hid; by right).
  unfold has_id. destruct (Z.eqb_spec (col_id r) i); repeat case_decide; done.
Qed.

(** X18.  [handleDelete] does nothing on an applet without a valid id;
    otherwise it asks for the removal of the applet, its record is gone,
    and the listing afterwards is the listing before without that id. *)
Theorem delete_action_removes_own_record (a : Applet) (w : World) :
(isValid (m_note a) = false → handleDelete a w = (false, w))
∧ (sound w = true → isValid (m_note a) = true →
   let r := handleDelete a w in
   fst r = true
   ∧ present (id (m_note a)) (snd r) = false
   ∧ fst (getAllNotes (snd r))
     = filter (λ n, id n ≠ id (m_note a)) (fst (getAllNotes w))
   ∧ sqlite_sequence (snd r) = sqlite_sequence w).
Proof.
  split.
  - intros Hv. unfold handleDelete. by rewrite Hv.
  - intros Hs Hv r. destruct (sound_inv w Hs) as (t & Ht & _ & _ & Hwf).
    assert (E : r = (true, after [Delete (id (m_note a))]
                             (filter (λ r, has_id (id (m_note a)) r = false) t)
                             (sqlite_sequence w) w)).
    { subst r. unfold handleDelete. rewrite Hv. cbn [negb].
      erewrite bind_run by (by apply deleteNoteById_sound). reflexivity. }
    rewrite E. cbn [fst snd]. split; [done|]. split.
    { unfold present. rewrite after_table. apply existsb_deleted. }
    split; [|done].
    rewrite (getAllNotes_sound _ (eq_trans (sound_after _ _ _ _)
                                    (wf_table_filter _ t _ Hwf)) _ (after_table _ _ _ _)).
    rewrite (getAllNotes_sound w Hs t Ht). cbn [fst].
    apply map_fetch_delete. intros x Hx. by eapply fetch_id.
Qed.

Lemma delete_action_removes_own_record_witness :
let a := in_drag_mode 3 (mkQRectF 100 100 200 150) in
let r := handleDelete a store_pending_3_7_9 in
fst r = true ∧ present 3 (snd r) = false
∧ map id (fst (getAllNotes (snd r))) = [1; 2; 4; 5; 6; 7; 8; 9].
Proof.
  assert (Hs : sound store_pending_3_7_9 = true) by (vm_compute; reflexivity).
  destruct (delete_action_removes_own_record
              (in_drag_mode 3 (mkQRectF 100 100 200 150)) store_pending_3_7_9)
    as (_ & H).
  destruct (H Hs eq_refl) as (H1 & H2 & H3 & _).
  split; [exact H1|]. split; [exact H2|]. rewrite H3. vm_compute. reflexivity.
Defined.

End AddAndDelete.

(** ** Values of the styling dialog *)

Section StylingValues.

Import DatabaseManager.

Lemma percent_table : forallb percent_ok (map Z.of_nat (seq 0 101)) = true.
Proof. vm_compute. reflexivity. Qed.

Lemma percent_in_unit_interval v :
0 <= v <= 100 →
Double.leb Double.zero (Double.div (Double.of_int v) Double.hundred) = true
∧ Double.leb (Double.div (Double.of_int v) Double.hundred) Double.one = true.
Proof.
  intros Hv. pose proof percent_table as H.
  rewrite forallb_forall in H. specialize (H v).
  apply andb_prop. apply H.
  apply in_map_iff. exists (Z.to_nat v). split; [lia|].
  apply in_seq. lia.
Qed.

Ltac finish_range :=
  try done;
  try (apply Z.leb_le; unfold CInt.in_range, CInt.INT_MIN, CInt.INT_MAX in *; lia).

Lemma handle_keeps_valid e a :
valid_note (m_note a) = true → in_slider_range e = true →
let a' := StylingDialog.handle e a in
valid_note (m_note a') = true
∧ set_style (style (m_note a)) (m_note a') = m_note a
∧ geometry a' = geometry a ∧ visible a' = visible a
∧ config_noteId a' = config_noteId a.
Proof.
  intros Hv He. destruct (valid_note_inv _ Hv) as (H1 & H2 & H3 & H4 & H5 & H6 & H7 & H8 & H9).
  assert (Hs : set_style (style (m_note a)) (m_note a) = m_note a).
  { by destruct (m_note a). }
  destruct e as [v|v|[c|]]; cbn in He; cbv zeta;
    unfold StylingDialog.handle, StylingDialog.onTransparencyChanged,
      StylingDialog.onMarginChanged, StylingDialog.onChooseColorClicked,
      StylingDialog.assign, StylingDialog.currentStyleRef;
    cbn [m_note set_m_note geometry visible config_noteId].
  - apply andb_prop in He as [Hlo Hhi]. apply Z.leb_le in Hlo, Hhi.
    destruct (percent_in_unit_interval v) as [Ha Hb]; [lia|].
    split; [|split; [by destruct (m_note a)|done]].
    unfold valid_note in *. cbn [status position size style set_style
      set_transparency transparency margin StylingDialog.currentStyleRef].
    rewrite Ha, Hb.
    repeat (apply andb_prop in Hv as [Hv ?]).
    repeat (apply andb_true_intro; split); finish_range.
  - apply andb_prop in He as [Hlo Hhi]. apply Z.leb_le in Hlo, Hhi.
    split; [|split; [by destruct (m_note a)|done]].
    unfold valid_note in *. cbn [status position size style set_style
      set_margin transparency margin StylingDialog.currentStyleRef].
    repeat (apply andb_prop in Hv as [Hv ?]).
    repeat (apply andb_true_intro; split); finish_range.
  - split; [|split; [by destruct (m_note a)|done]].
    unfold valid_note in *. cbn [status position size style set_style
      set_backgroundColor transparency margin StylingDialog.currentStyleRef].
    exact Hv.
  - split; [done|]. split; [by destruct (m_note a)|done].
Qed.

Lemma events_keep_valid events : ∀ a,
valid_note (m_note a) = true → forallb in_slider_range events = true →
let a' := fold_left (λ acc e, StylingDialog.handle e acc) events a in
valid_note (m_note a') = true
∧ set_style (style (m_note a)) (m_note a') = m_note a
∧ geometry a' = geometry a ∧ visible a' = visible a
∧ config_noteId a' = config_noteId a.
Proof.
  induction events as [|e events IH]; intros a Hv He.
  - cbn. split; [done|]. split; [by destruct (m_note a)|done].
  - cbn [forallb] in He. apply andb_prop in He as [He1 He2].
    destruct (handle_keeps_valid e a Hv He1) as (Hv1 & Hn1 & Hg1 & Hvis1 & Hc1).
    destruct (IH _ Hv1 He2) as (Hv2 & Hn2 & Hg2 & Hvis2 & Hc2).
    cbn [fold_left]. cbv zeta in *.
    split; [done|]. split.
    + rewrite <- Hn1 at 2. rewrite <- Hn2.
      by destruct (m_note (fold_left _ events _)).
    + split; [congruence|]. split; congruence.
Qed.

(** X24.  Whatever is done in the styling dialog with slider values in
    the ranges the dialog sets up (0..100 for the transparency, 0..50 for
    the margin), the note stays a record of the data model, with a
    transparency between 0 and 1, and its id, status, file path, position
    and size, as well as the geometry, are untouched. *)
Theorem styling_sliders_keep_note_valid (events : list DialogEvent) (a : Applet) :
valid_note (m_note a) = true → forallb in_slider_range events = true →
let a' := fold_left (λ acc e, StylingDialog.handle e acc) events a in
valid_note (m_note a') = true
∧ id (m_note a') = id (m_note a)
∧ status (m_note a') = status (m_note a)
∧ filepath (m_note a') = filepath (m_note a)
∧ position (m_note a') = position (m_note a)
∧ size (m_note a') = size (m_note a)
∧ geometry a' = geometry a.
Proof.
  intros Hv He a'.
  destruct (events_keep_valid events a Hv He) as (H1 & H2 & H3 & _).
  fold a' in H1, H2, H3. rewrite <- H2.
  by destruct (m_note a').
Qed.

Lemma styling_sliders_keep_note_valid_witness :
let a := in_drag_mode 1 (mkQRectF 100 100 200 150) in
let events := [TransparencySlider 40; ChooseColor (Some "#336699"); MarginSlider 25] in
valid_note (m_note (fold_left (λ acc e, StylingDialog.handle e acc) events a)) = true.
Proof.
  intros a events.
  assert (Hv : valid_note (m_note a) = true) by (vm_compute; reflexivity).
  exact (proj1 (styling_sliders_keep_note_valid events a Hv eq_refl)).
Defined.

(** X25.  After the styling dialog is left with Ok, the stored record
    reads back with the fields the applet shows, and every other record
    reads as before. *)
Theorem styling_ok_is_read_back (events : list DialogEvent) (a : Applet) (w : World) :
sound w = true → present (id (m_note a)) w = true →
valid_note (m_note a) = true → forallb in_slider_range events = true →
let r := handleStyling events OkButton a w in
let read := getNoteById (id (m_note a)) (snd r) in
fst r = fold_left (λ acc e, StylingDialog.handle e acc) events a
∧ id (fst read) = id (m_note a)
∧ same_fields (fst read) (m_note (fst r))
∧ ∀ j, j ≠ id (m_note a) → stored_note j (snd r) = stored_note j w.
Proof.
  intros Hs Hp Hv He r read.
  destruct (present_in_range _ w Hs Hp) as (Hpos & Hin).
  destruct (events_keep_valid events a Hv He) as (H1 & H2 & _).
  set (a' := fold_left (λ acc e, StylingDialog.handle e acc) events a) in *.
  assert (Hid : id (m_note a') = id (m_note a)).
  { rewrite <- H2. by destruct (m_note a'). }
  assert (E : r = (a', snd (updateNote (m_note a') w))).
  { subst r. unfold handleStyling. rewrite isValid_pos by done. cbn [negb].
    unfold StylingDialog.exec, StylingDialog.acceptDialog. fold a'.
    unfold DesktopNotesApplet.saveNoteData.
    rewrite isValid_pos by (rewrite Hid; done). cbn [negb].
    unfold bind. by destruct (updateNote (m_note a') w). }
  subst read. rewrite E. cbn [fst snd]. rewrite <- Hid.
  destruct (updateNote_getNoteById (m_note a') w Hs) as (_ & _ & Ha & Hb & _ & Hc);
    [by rewrite Hid|done|].
  split; [done|]. split; [done|]. split; [done|]. exact Hc.
Qed.

Lemma styling_ok_is_read_back_witness :
let a := in_drag_mode 1 (mkQRectF 100 100 200 150) in
let events := [TransparencySlider 40; ChooseColor (Some "#336699"); MarginSlider 25] in
let r := handleStyling events OkButton a store_one in
same_fields (fst (getNoteById 1 (snd r))) (m_note (fst r)).
Proof.
  intros a events.
  assert (Hv : valid_note (m_note a) = true) by (vm_compute; reflexivity).
  destruct (styling_ok_is_read_back events a store_one eq_refl eq_refl Hv eq_refl)
    as (_ & _ & H & _).
  exact H.
Defined.

End StylingValues.

(** ** The table of all notes *)

Section AllNotes.

Import DatabaseManager NotesTableModel.

(** X26.  [NotesTableModel::setData] writes a status only through the
    status column, in the edit role, for a value that is "shown" or
    "hidden" and differs from the current status of the row.  For any
    other text it returns [false] and changes neither the list nor the
    store; and whatever the state of the world, its only possible write is
    one UPDATE of the status to "shown" or "hidden". *)
Theorem setData_accepts_only_shown_or_hidden (index : QModelIndex) (value : QVariant)
  (role : ItemDataRole) (m_notes : list Note) (w : World) :
let r := setData index value role m_notes w in
let st := Variant.toString value in
(fst (fst r) = true →
 role = EditRole ∧ ix_column index = 1 ∧ st ∈ ["shown"; "hidden"]
 ∧ ∃ note, m_notes !! Z.to_nat (ix_row index) = Some note ∧ status note ≠ st)
∧ (st ∉ ["shown"; "hidden"] → r = ((false, m_notes), w))
∧ (filter is_write (trace (snd r)) = filter is_write (trace w)
   ∨ ∃ i, filter is_write (trace (snd r))
          = filter is_write (trace w) ++ [UpdateStatus i st]
          ∧ st ∈ ["shown"; "hidden"]).
Proof.
  intros r st. subst r. unfold setData.
  destruct (negb (index_isValid index)
            || negb (match role with EditRole => true | _ => false end)
            || (count m_notes <=? ix_row index)) eqn:Eg.
  { cbn. split; [done|]. split; [done|]. by left. }
  apply orb_false_iff in Eg as [[_ Er]%orb_false_iff _].
  assert (Hr : role = EditRole) by (by destruct role).
  destruct (m_notes !! Z.to_nat (ix_row index)) as [note|] eqn:En.
  2:{ cbn. split; [done|]. split; [done|]. by left. }
  destruct (Z.eqb_spec (ix_column index) 1) as [Hc|Hc].
  2:{ cbn. split; [done|]. split; [done|]. by left. }
  fold st.
  destruct (negb (String.eqb (status note) st)
            && (String.eqb st "shown" || String.eqb st "hidden")) eqn:Ev.
  2:{ cbn. split; [done|]. split; [done|]. by left. }
  apply andb_prop in Ev as [Hne Hin].
  assert (Hst : st ∈ ["shown"; "hidden"]).
  { apply orb_prop in Hin as [H|H]; apply String.eqb_eq in H; rewrite H.
    - left.
    - right. left. }
  assert (Hne' : status note ≠ st).
  { intros E. rewrite E, String.eqb_refl in Hne. done. }
  split; [|split].
  - intros _. eauto 10.
  - intros Hn. done.
  - destruct w as [c m t q f tr].
    destruct c, m, t as [t|], f as [|[] [|[] f]]; cbn;
      rewrite <- ?app_assoc, ?filter_app, ?app_nil_r; cbn;
      first [ by left | right; exists (id note); split; [|done];
                        by rewrite ?app_nil_r ].
Qed.

Lemma setData_accepts_only_shown_or_hidden_witness :
let index := mkQModelIndex true 0 1 in
let m_notes := [set_id 1 defaultNote] in
setData index (VString "archived") EditRole m_notes store_one
= ((false, m_notes), store_one).
Proof.
  intros index m_notes.
  destruct (setData_accepts_only_shown_or_hidden index (VString "archived") EditRole
              m_notes store_one) as (_ & H & _).
  apply H. cbn. intros Hin.
  apply elem_of_cons in Hin as [Hin|Hin]; [discriminate|].
  apply elem_of_cons in Hin as [Hin|Hin]; [discriminate|].
  by apply elem_of_nil in Hin.
Defined.

Lemma map_at_unique_id (f : Row → Row) (t : list Row) : ∀ (k : nat) (r : Row),
NoDup (map col_id t) → t !! k = Some r →
map (λ x, if has_id (col_id r) x then f x else x) t = <[k := f r]> t.
Proof.
  induction t as [|x t IH]; intros k r Hnd Hk; [done|].
  cbn [map] in *. apply NoDup_cons in Hnd as [Hx Hnd].
  destruct k as [|k]; cbn in Hk.
  - injection Hk as ->. cbn [insert list_insert]. unfold has_id at 1.
    rewrite Z.eqb_refl. f_equal.
    clear IH. induction t as [|y t IHt]; [done|]. cbn [map] in *.
    apply not_elem_of_cons in Hx as [Hxy Hx].
    apply NoDup_cons in Hnd as [_ Hnd].
    unfold has_id at 1. destruct (Z.eqb_spec (col_id y) (col_id r)); [congruence|].
    f_equal. by apply IHt.
  - cbn. assert (Hin : col_id r ∈ map col_id t).
    { apply list_elem_of_fmap. exists r. split; [done|].
      by eapply list_elem_of_lookup_2. }
    unfold has_id at 1. destruct (Z.eqb_spec (col_id x) (col_id r)) as [E|E].
    { rewrite E in Hx. done. }
    f_equal. by apply IH.
Qed.

Lemma head_filter_unique i (t : list Row) (r : Row) :
NoDup (map col_id t) → r ∈ t → col_id r = i →
head (filter (λ x, has_id i x = true) t) = Some r.
Proof.
  intros Hnd Hin Hi. induction t as [|x t IH]; [by apply elem_of_nil in Hin|].
  cbn [map] in Hnd. apply NoDup_cons in Hnd as [Hx Hnd].
  rewrite filter_cons. apply elem_of_cons in Hin as [Hin|Hin].
  - subst x. destruct (decide (has_id i r = true)) as [E|E]; [done|].
    exfalso. apply E. by apply Z.eqb_eq.
  - destruct (decide (has_id i x = true)) as [E|E]; [|by apply IH].
    exfalso. apply Hx. apply Z.eqb_eq in E.
    apply list_elem_of_fmap. exists r. split; [congruence|done].
Qed.

Lemma toggled_status_ok (n : Note) :
let new := if String.eqb (status n) "shown" then "hidden" else "shown" in
negb (String.eqb (status n) new)
&& (String.eqb new "shown" || String.eqb new "hidden") = true.
Proof.
  cbv zeta. destruct (String.eqb (status n) "shown") eqn:E.
  - apply String.eqb_eq in E. rewrite E. reflexivity.
  - rewrite E. reflexivity.
Qed.

(** A double click on the status cell of row [k] of a list just loaded. *)
Lemma onTableDoubleClicked_sound (index : QModelIndex) (w : World) (t : list Row)
  (r : Row) :
sound w = true → table w = Some t →
index_isValid index = true → ix_column index = 1 →
t !! Z.to_nat (ix_row index) = Some r →
let k := Z.to_nat (ix_row index) in
let new := if String.eqb (col_status (cols r)) "shown" then "hidden" else "shown" in
onTableDoubleClicked index (map fetch t) w
= (map fetch (<[k := set_row_status new r]> t),
   after [UpdateStatus (col_id r) new] (<[k := set_row_status new r]> t)
     (sqlite_sequence w) w).
Proof.
  intros Hs Ht Hv Hc Hk k new.
  pose proof (sound_wf w t Hs Ht) as Hwf.
  assert (Hin : r ∈ t) by (by eapply list_elem_of_lookup_2).
  destruct (wf_table_ids t _ r Hwf Hin) as [Hpos Hrange].
  assert (Hid : id (fetch r) = col_id r).
  { cbn. by rewrite wrap_in_range. }
  assert (Hrow : 0 <= ix_row index).
  { unfold index_isValid in Hv. apply andb_prop in Hv as [[_ H]%andb_prop _]. lia. }
  assert (Hlk : map fetch t !! k = Some (fetch r)).
  { rewrite list_lookup_fmap. unfold k. by rewrite Hk. }
  assert (Hlen : (k < length t)%nat) by (by eapply lookup_lt_Some).
  unfold onTableDoubleClicked. rewrite Hv, Hc. cbn [negb orb Z.eqb Pos.eqb].
  unfold getNoteAt, count. rewrite length_map.
  destruct (Z.leb_spec 0 (ix_row index)); [|lia].
  destruct (Z.ltb_spec (ix_row index) (Z.of_nat (length t))); [|lia].
  cbn [andb]. fold k. rewrite Hlk. cbn [default from_option Datatypes.id].
  rewrite isValid_pos by (rewrite Hid; lia). cbn [negb].
  change (status (fetch r)) with (col_status (cols r)). fold new.
  unfold setData. rewrite Hv. cbn [negb orb].
  unfold count. rewrite length_map.
  destruct (Z.leb_spec (Z.of_nat (length t)) (ix_row index)); [lia|].
  fold k. rewrite Hlk, Hc. cbn [Z.eqb Pos.eqb Variant.toString].
  pose proof (toggled_status_ok (fetch r)) as Htog. cbv zeta in Htog.
  change (status (fetch r)) with (col_status (cols r)) in Htog. fold new in Htog.
  change (status (fetch r)) with (col_status (cols r)). rewrite Htog.
  rewrite Hid.
  erewrite bind_run.
  2:{ erewrite bind_run by (by apply setNoteStatus_sound). reflexivity. }
  unfold ret. cbn [snd].
  rewrite (map_at_unique_id (set_row_status new) t k r (wf_table_nodup t _ Hwf) Hk).
  f_equal. rewrite list_fmap_insert. reflexivity.
Qed.

(** X27.  A double click on the status cell of a row of the freshly
    loaded list sets that row to "hidden" if it was "shown" and to
    "shown" otherwise, in the list and in the store; reloading the list
    from the store gives the list shown; and a second double click on a
    row that was "shown" or "hidden" restores the list. *)
Theorem double_click_toggles_status (index : QModelIndex) (w : World) (t : list Row)
  (n : Note) :
sound w = true → table w = Some t →
index_isValid index = true → ix_column index = 1 →
map fetch t !! Z.to_nat (ix_row index) = Some n →
let k := Z.to_nat (ix_row index) in
let new := if String.eqb (status n) "shown" then "hidden" else "shown" in
let r := onTableDoubleClicked index (map fetch t) w in
fst r = <[k := set_status new n]> (map fetch t)
∧ stored_status (id n) (snd r) = Some new
∧ fst (loadNotes (snd r)) = fst r
∧ (status n ∈ ["shown"; "hidden"] →
   fst (onTableDoubleClicked index (fst r) (snd r)) = map fetch t).
Proof.
  intros Hs Ht Hv Hc Hn k new r.
  rewrite list_lookup_fmap in Hn.
  destruct (t !! Z.to_nat (ix_row index)) as [row|] eqn:Hk; [|done].
  cbn in Hn. injection Hn as <-.
  pose proof (sound_wf w t Hs Ht) as Hwf.
  assert (Hin : row ∈ t) by (by eapply list_elem_of_lookup_2).
  destruct (wf_table_ids t _ row Hwf Hin) as [Hpos Hrange].
  assert (Hid : id (fetch row) = col_id row).
  { cbn. by rewrite wrap_in_range. }
  change (status (fetch row)) with (col_status (cols row)) in *.
  set (t' := <[k := set_row_status new row]> t).
  assert (E : r = (map fetch t',
                   after [UpdateStatus (col_id row) new] t' (sqlite_sequence w) w)).
  { subst r. by apply onTableDoubleClicked_sound. }
  assert (Hlen : (k < length t)%nat) by (by eapply lookup_lt_Some).
  assert (Hwf' : wf_table t' (sqlite_sequence w) = true).
  { subst t'.
    rewrite <- (map_at_unique_id (set_row_status new) t k row
                  (wf_table_nodup t _ Hwf) Hk).
    apply wf_table_map; [|done]. intros x. by destruct (has_id (col_id row) x). }
  assert (Hk' : t' !! k = Some (set_row_status new row)).
  { subst t'. by rewrite list_lookup_insert_eq. }
  rewrite E. cbn [fst snd].
  split; [|split; [|split]].
  - subst t'. by rewrite list_fmap_insert.
  - unfold stored_status. rewrite after_table, Hid.
    rewrite (head_filter_unique (col_id row) t' (set_row_status new row)
               (wf_table_nodup t' _ Hwf'));
      [reflexivity|by eapply list_elem_of_lookup_2|reflexivity].
  - unfold loadNotes.
    rewrite (getAllNotes_sound _ (eq_trans (sound_after _ _ _ _) Hwf') t')
      by reflexivity.
    reflexivity.
  - intros Hst.
    rewrite (onTableDoubleClicked_sound index _ t' (set_row_status new row));
      [|by rewrite sound_after|reflexivity|done|done|exact Hk'].
    cbn [fst]. fold k. subst t'. rewrite list_insert_insert_eq.
    assert (Hback : set_row_status
                      (if String.eqb (col_status (cols (set_row_status new row))) "shown"
                       then "hidden" else "shown") (set_row_status new row) = row).
    { cbn [set_row_status cols col_status].
      apply elem_of_cons in Hst as [Hs1|Hs2].
      - subst new. rewrite Hs1. cbn. destruct row as [i [? ? ? ? ? ? ?]].
        cbn in *. by rewrite Hs1.
      - apply elem_of_cons in Hs2 as [Hs2|Hs2]; [|by apply elem_of_nil in Hs2].
        subst new. rewrite Hs2. cbn. destruct row as [i [? ? ? ? ? ? ?]].
        cbn in *. by rewrite Hs2. }
    rewrite Hback. by rewrite list_insert_id.
Qed.

Lemma double_click_toggles_status_witness :
let index := mkQModelIndex true 0 1 in
let r := onTableDoubleClicked index (fst (getAllNotes store_one)) store_one in
map status (fst r) = ["hidden"] ∧ stored_status 1 (snd r) = Some "hidden".
Proof.
  intros index.
  destruct (double_click_toggles_status index store_one
              [mkRow 1 (bound defaultNote)] (set_id 1 defaultNote))
    as (H1 & H2 & _); try reflexivity.
  split.
  - change (fst (getAllNotes store_one)) with (map fetch [mkRow 1 (bound defaultNote)]).
    rewrite H1. reflexivity.
  - exact H2.
Defined.

(** X28.  When the UPDATE of [setData] fails, [setData] returns [false]
    and the store is unchanged, but the row of the list already carries
    the new status: list and store disagree until the list is
    reloaded. *)
Theorem failed_status_write_leaves_list_changed (index : QModelIndex) (st : string)
  (m_notes : list Note) (note : Note) (w : World) (fs : list bool) :
conn_open w = true → faults w = true :: fs →
index_isValid index = true → ix_column index = 1 →
m_notes !! Z.to_nat (ix_row index) = Some note →
status note ≠ st → st ∈ ["shown"; "hidden"] →
let r := setData index (VString st) EditRole m_notes w in
fst (fst r) = false
∧ snd (fst r) = <[Z.to_nat (ix_row index) := set_status st note]> m_notes
∧ status <$> snd (fst r) !! Z.to_nat (ix_row index) = Some st
∧ table (snd r) = table w
∧ trace (snd r) = trace w.
Proof.
  intros Ho Hf Hv Hc Hn Hne Hst r.
  assert (Hrow : 0 <= ix_row index).
  { unfold index_isValid in Hv. apply andb_prop in Hv as [[_ H]%andb_prop _]. lia. }
  assert (Hlen : (Z.to_nat (ix_row index) < length m_notes)%nat)
    by (by eapply lookup_lt_Some).
  assert (E : r = ((false, <[Z.to_nat (ix_row index) := set_status st note]> m_notes),
                   set_faults fs w)).
  { subst r. unfold setData. rewrite Hv. cbn [negb orb]. unfold count.
    destruct (Z.leb_spec (Z.of_nat (length m_notes)) (ix_row index)); [lia|].
    rewrite Hn, Hc. cbn [Z.eqb Pos.eqb Variant.toString].
    assert (H1 : String.eqb (status note) st = false) by (by apply String.eqb_neq).
    assert (H2 : String.eqb st "shown" || String.eqb st "hidden" = true).
    { apply elem_of_cons in Hst as [->|Hst]; [done|].
      apply elem_of_cons in Hst as [->|Hst]; [done|]. by apply elem_of_nil in Hst. }
    rewrite H1, H2. cbn [negb andb].
    destruct w as [c m t q f tr]. cbn in Ho, Hf. subst c f. reflexivity. }
  rewrite E. cbn [fst snd]. rewrite list_lookup_insert_eq by done.
  repeat split.
Qed.

Lemma failed_status_write_leaves_list_changed_witness :
let index := mkQModelIndex true 0 1 in
let w := set_faults [true] store_one in
let r := setData index (VString "hidden") EditRole [set_id 1 defaultNote] w in
fst (fst r) = false
∧ status <$> snd (fst r) !! 0%nat = Some "hidden"
∧ stored_status 1 (snd r) = Some "shown".
Proof.
  intros index w.
  destruct (failed_status_write_leaves_list_changed index "hidden"
              [set_id 1 defaultNote] (set_id 1 defaultNote) w [])
    as (H1 & _ & H2 & H3 & _); try reflexivity.
  - discriminate.
  - right. left.
  - split; [exact H1|]. split; [exact H2|].
    unfold stored_status. rewrite H3. reflexivity.
Defined.

End AllNotes.

(** ** Files and directories *)

Section Paths.

Import DesktopNotesConfig.

Lemma list_ascii_of_string_app (a b : string) :
String.list_ascii_of_string (a +:+ b)
= String.list_ascii_of_string a ++ String.list_ascii_of_string b.
Proof.
  induction a as [|c a IH]; [done|]. cbn. by rewrite <- IH.
Qed.

Lemma endsWith_prepend (a b c : string) :
endsWith b c = true → endsWith (a +:+ b) c = true.
Proof.
  unfold endsWith. rewrite !bool_decide_eq_true, list_ascii_of_string_app.
  apply suffix_app_r.
Qed.

Lemma endsWith_append (s a b : string) :
endsWith s a = true → endsWith (s +:+ b) (a +:+ b) = true.
Proof.
  unfold endsWith. rewrite !bool_decide_eq_true, !list_ascii_of_string_app.
  apply suffix_app.
Qed.

(** X29.  Whatever the standard locations of the machine are, the data
    and the configuration directory end with "/desktop-notes", the
    database is the file "notes.db" and the settings file "settings.ini"
    directly under them. *)
Theorem files_live_under_desktop_notes (l : Locations) :
endsWith (getDataDir l) "/desktop-notes" = true
∧ endsWith (getConfigDir l) "/desktop-notes" = true
∧ endsWith (getDatabaseFilePath l) "/desktop-notes/notes.db" = true
∧ endsWith (getSettingsFilePath l) "/desktop-notes/settings.ini" = true.
Proof.
  assert (Hd : endsWith (getDataDir l) "/desktop-notes" = true).
  { unfold getDataDir. destruct (String.eqb (AppDataLocation l) "").
    - apply endsWith_prepend. vm_compute. reflexivity.
    - destruct (endsWith (AppDataLocation l) "/desktop-notes") eqn:E; cbn [negb].
      + exact E.
      + apply endsWith_prepend. vm_compute. reflexivity. }
  assert (Hc : endsWith (getConfigDir l) "/desktop-notes" = true).
  { unfold getConfigDir. destruct (String.eqb (AppConfigLocation l) "").
    - apply endsWith_prepend. vm_compute. reflexivity.
    - destruct (endsWith (AppConfigLocation l) "/desktop-notes") eqn:E; cbn [negb].
      + exact E.
      + apply endsWith_prepend. vm_compute. reflexivity. }
  split; [done|]. split; [done|]. split.
  - unfold getDatabaseFilePath.
    change "/desktop-notes/notes.db" with ("/desktop-notes" +:+ "/notes.db").
    by apply endsWith_append.
  - unfold getSettingsFilePath.
    change "/desktop-notes/settings.ini" with ("/desktop-notes" +:+ "/settings.ini").
    by apply endsWith_append.
Qed.

End Paths.
